(** * The write-ahead-log record writer of xengine (db/log_writer.cc)

    A shallow embedding of [xengine::db::log::Writer]: the constructor, the
    two [AddRecord] overloads, the fragmentation loop [add_record_with_crc]
    and [EmitPhysicalRecord], followed by the properties of the physical
    records they hand to the file sink. *)

From Stdlib Require Import ZArith List Lia Bool.
From Stdlib Require Import Strings.Byte.
Import ListNotations.
Local Open Scope Z_scope.

(** ** Machine integers

    [size_t] and [uint64_t] are 64-bit unsigned, [int64_t] is 64-bit signed,
    [uint32_t] is 32-bit unsigned.  Values are kept in [Z] and every
    conversion the C++ code performs is written out. *)

Definition to_size_t (z : Z) : Z := z mod 2 ^ 64.
Definition to_uint64 (z : Z) : Z := z mod 2 ^ 64.
Definition to_uint32 (z : Z) : Z := z mod 2 ^ 32.
Definition to_int64 (z : Z) : Z := (z + 2 ^ 63) mod 2 ^ 64 - 2 ^ 63.

(** ** Bytes and slices *)

(** [static_cast<char>(z)]: the low eight bits. *)
Definition char_of (z : Z) : byte :=
  match Byte.of_N (Z.to_N (z mod 256)) with
  | Some b => b
  | None => x00
  end.

(** The value of a byte read as [unsigned char]. *)
Definition uchar (b : byte) : Z := Z.of_N (Byte.to_N b).

(** A [Slice] is a pointer with a length; its contents are a byte list. *)
Definition Slice := list byte.

Definition size (s : Slice) : Z := Z.of_nat (length s).

(** [Slice(base + ptr, n)]: the [n] bytes that start [ptr] bytes into the
    buffer [base]. *)
Definition Slice_at (base : Slice) (ptr n : Z) : Slice :=
  firstn (Z.to_nat n) (skipn (Z.to_nat ptr) base).

(** ** Constants and declarations of db/log_format.h and util/coding.h *)

(** Modelled from the spec: db/log_format.h is not part of the sources at
    hand.  The block size is the 32768 bytes of the specification, the legacy
    header has 7 bytes (checksum 4, length 2, type 1) and the recyclable
    header 11 (4 more for the log number). *)
Definition kBlockSize : Z := 32768.
Definition kHeaderSize : Z := 4 + 2 + 1.
Definition kRecyclableHeaderSize : Z := 4 + 2 + 1 + 4.

(** Modelled from the spec: the [RecordType] enumeration of db/log_format.h,
    four legacy roles followed by the four recyclable ones, the zero type
    being reserved; every recyclable code is at least [kRecyclableFullType]
    and every legacy code is below it. *)
Inductive RecordType : Type :=
  | kZeroType
  | kFullType
  | kFirstType
  | kMiddleType
  | kLastType
  | kRecyclableFullType
  | kRecyclableFirstType
  | kRecyclableMiddleType
  | kRecyclableLastType.

(** Modelled from the spec: the numeric value of a record type, in the
    order of the enumeration, so that the legacy codes are below
    [kRecyclableFullType] and the recyclable ones are not. *)
Definition type_code (t : RecordType) : Z :=
  match t with
  | kZeroType => 0
  | kFullType => 1
  | kFirstType => 2
  | kMiddleType => 3
  | kLastType => 4
  | kRecyclableFullType => 5
  | kRecyclableFirstType => 6
  | kRecyclableMiddleType => 7
  | kRecyclableLastType => 8
  end.

(** Modelled from the spec: the largest record type, which sizes the
    table of per-type checksums. *)
Definition kMaxRecordType : Z := type_code kRecyclableLastType.

(** Modelled from the spec: [EncodeFixed32] of util/coding.h, the fixed
    4-byte little-endian layout of a 32-bit value. *)
Definition EncodeFixed32 (v : Z) : Slice :=
  [ char_of (Z.land v 255);
    char_of (Z.land (Z.shiftr v 8) 255);
    char_of (Z.land (Z.shiftr v 16) 255);
    char_of (Z.land (Z.shiftr v 24) 255) ].

(** The reader's side of [EncodeFixed32], used to state what a header holds. *)
Definition DecodeFixed32 (s : Slice) : Z :=
  match s with
  | b0 :: b1 :: b2 :: b3 :: _ =>
      uchar b0 + 256 * uchar b1 + 65536 * uchar b2 + 16777216 * uchar b3
  | _ => 0
  end.

(** ** Collaborators *)

(** The checksum primitive of util/crc32c.h: [Value] over a buffer and
    [Extend] of a seed by more bytes.  Both are external to the writer. *)
Class Crc32c : Type := {
  crc32c_Value : Slice -> Z;
  crc32c_Extend : Z -> Slice -> Z
}.

(** The file sink ([util::ConcurrentDirectFileWriter]): the one-buffer and
    the two-buffer [append], each returning the sink after the call and the
    integer result of the call (zero is success). *)
Class FileSink (S : Type) : Type := {
  append : S -> Slice -> S * Z;
  append2 : S -> Slice -> Slice -> S * Z
}.

(** What the writer asked of its sink, in call order, with the result the
    sink gave.  [EvPad] is the filler write of a block switch, [EvPhys] one
    physical record (header, then payload). *)
Inductive Event : Type :=
  | EvPad (filler : Slice) (ret : Z)
  | EvPhys (header payload : Slice) (ret : Z).

Inductive Status : Type := OK | IOError.

Definition ok (s : Status) : bool :=
  match s with OK => true | IOError => false end.

(** A call returns, trips an [assert], or (for the loop run on fuel) has not
    finished when the fuel is spent. *)
Inductive Outcome (A : Type) : Type :=
  | Ret (a : A)
  | AssertFailed
  | OutOfFuel.
Arguments Ret {A} a.
Arguments AssertFailed {A}.
Arguments OutOfFuel {A}.

Definition bind {A B : Type} (m : Outcome A) (k : A -> Outcome B) : Outcome B :=
  match m with
  | Ret a => k a
  | AssertFailed => AssertFailed
  | OutOfFuel => OutOfFuel
  end.

Definition assertion (b : bool) : Outcome unit :=
  if b then Ret tt else AssertFailed.

Notation "x <- m ;; k" := (bind m (fun x => k))
  (at level 61, m at next level, right associativity).
Notation "m ;;; k" := (bind m (fun _ => k))
  (at level 61, right associativity).

(** ** The writer *)

Record Writer (S : Type) : Type := mkWriter {
  dest_ : S;
  block_offset_ : Z;          (* size_t: offset in the current block *)
  log_number_ : Z;            (* uint64_t *)
  recycle_log_files_ : bool;
  use_allocator_ : bool;
  type_crc_ : list Z          (* uint32_t type_crc_[kMaxRecordType + 1] *)
}.
Arguments mkWriter {S}.
Arguments dest_ {S}.
Arguments block_offset_ {S}.
Arguments log_number_ {S}.
Arguments recycle_log_files_ {S}.
Arguments use_allocator_ {S}.
Arguments type_crc_ {S}.

Definition set_block_offset {S} (w : Writer S) (b : Z) : Writer S :=
  mkWriter (dest_ w) b (log_number_ w) (recycle_log_files_ w)
           (use_allocator_ w) (type_crc_ w).

Definition set_dest {S} (w : Writer S) (d : S) : Writer S :=
  mkWriter d (block_offset_ w) (log_number_ w) (recycle_log_files_ w)
           (use_allocator_ w) (type_crc_ w).

Section WriterCode.

Context {S : Type} {sink : FileSink S} {crc32c : Crc32c}.

(** [Writer::Writer(dest, log_number, recycle_log_files, use_allocator)]:
    the cursor starts at 0 and the table holds, for every type code
    [0 .. kMaxRecordType], the checksum of that one byte.  The constructor
    kept for compatibility sets the same cursor, identity and table. *)
Definition Writer_new (dest : S) (log_number : Z)
    (recycle_log_files use_allocator : bool) : Writer S :=
  mkWriter dest 0 (to_uint64 log_number) recycle_log_files use_allocator
    (map (fun i => crc32c_Value [char_of (Z.of_nat i)])
         (seq 0 (Z.to_nat kMaxRecordType + 1))).

(** Modelled from the spec: [Writer::calculate_crc] is declared in
    db/log_writer.h, which is not part of the sources at hand; the
    specification has it apply the checksum primitive to the full logical
    payload.  Its result is a [uint32_t]. *)
Definition calculate_crc (slice : Slice) : Z :=
  to_uint32 (crc32c_Value slice).

(** [Writer::EmitPhysicalRecord(t, ptr, n, crc)].  The pointer [ptr] is an
    offset into the caller's buffer [base]. *)
Definition EmitPhysicalRecord (w : Writer S) (t : RecordType)
    (base : Slice) (ptr n crc : Z)
    : Outcome (list Event * Status * Writer S) :=
  assertion (n <=? 65535) ;;;
  (* buf[4], buf[5], buf[6] *)
  let buf4 := char_of (Z.land n 255) in
  let buf5 := char_of (Z.shiftr n 8) in
  let buf6 := char_of (type_code t) in
  fmt <- (if type_code t <? type_code kRecyclableFullType then
            (* legacy record format *)
            assertion (to_size_t (block_offset_ w + kHeaderSize + n)
                      <=? kBlockSize) ;;;
            Ret (kHeaderSize, [])
          else
            (* recyclable record format *)
            assertion (to_size_t (block_offset_ w + kRecyclableHeaderSize + n)
                      <=? kBlockSize) ;;;
            Ret (kRecyclableHeaderSize,
                 EncodeFixed32 (to_uint32 (log_number_ w)))) ;;
  let '(header_size, buf7) := fmt in
  let buf := EncodeFixed32 crc ++ [buf4; buf5; buf6] ++ buf7 in
  (* write the header and the payload *)
  let header := firstn (Z.to_nat header_size) buf in
  let payload := Slice_at base ptr n in
  let '(dest', ret) := append2 (dest_ w) header payload in
  if ret =? 0 then
    Ret ([EvPhys header payload ret], OK,
         set_block_offset (set_dest w dest')
           (to_size_t (block_offset_ w + header_size + n)))
  else
    Ret ([EvPhys header payload ret], IOError, set_dest w dest').

(** The literal of the filler write: ten zero bytes and the terminating
    NUL of the string literal. *)
Definition filler_literal : Slice := repeat x00 11.

(** Lines 233-248 of the loop body: switch to a new block when the rest of
    the current one cannot hold a header. *)
Definition switch_block (w : Writer S) (header_size : Z)
    : Outcome (list Event * Writer S) :=
  let leftover := to_int64 (to_size_t (kBlockSize - block_offset_ w)) in
  assertion (0 <=? leftover) ;;;
  r <- (if leftover <? header_size then
          if 0 <? leftover then
            assertion (header_size <=? 11) ;;;
            let filler := firstn (Z.to_nat leftover) filler_literal in
            let '(dest', ret) := append (dest_ w) filler in
            (* the result of the filler write is not looked at *)
            Ret ([EvPad filler ret], set_block_offset (set_dest w dest') 0)
          else Ret ([], set_block_offset w 0)
        else Ret ([], w)) ;;
  let '(evs, w1) := r in
  (* Invariant: we never leave < header_size bytes in a block. *)
  assertion (header_size
            <=? to_int64 (to_size_t (kBlockSize - block_offset_ w1))) ;;;
  Ret (evs, w1).

(** The record type of a fragment, lines 253-263. *)
Definition fragment_type (recycle begin end_ : bool) : RecordType :=
  if begin && end_ then
    if recycle then kRecyclableFullType else kFullType
  else if begin then
    if recycle then kRecyclableFirstType else kFirstType
  else if end_ then
    if recycle then kRecyclableLastType else kLastType
  else
    if recycle then kRecyclableMiddleType else kMiddleType.

(** One pass through the body of the [do ... while] of
    [add_record_with_crc]: the events of the pass, the status [s], the
    writer, and the new [ptr] and [left]. *)
Definition loop_body (w : Writer S) (header_size : Z) (base : Slice)
    (ptr left : Z) (begin : bool) (crc : Z)
    : Outcome (list Event * Status * Writer S * Z * Z) :=
  r <- switch_block w header_size ;;
  let '(evs1, w1) := r in
  let avail := to_size_t (kBlockSize - block_offset_ w1 - header_size) in
  let fragment_length := if left <? avail then left else avail in
  let end_ := left =? fragment_length in
  let type := fragment_type (recycle_log_files_ w1) begin end_ in
  e <- EmitPhysicalRecord w1 type base ptr fragment_length crc ;;
  let '(evs2, s, w2) := e in
  Ret (evs1 ++ evs2, s, w2, ptr + fragment_length, left - fragment_length).

(** The [do ... while (s.ok() && left > 0)] loop, on fuel: one unit per
    pass. *)
Fixpoint do_while (fuel : nat) (w : Writer S) (header_size : Z)
    (base : Slice) (ptr left : Z) (begin : bool) (crc : Z)
    : Outcome (list Event * Status * Writer S) :=
  match fuel with
  | O => OutOfFuel
  | Datatypes.S fuel' =>
      r <- loop_body w header_size base ptr left begin crc ;;
      let '(evs, s, w', ptr', left') := r in
      if ok s && (0 <? left') then
        r' <- do_while fuel' w' header_size base ptr' left' false crc ;;
        let '(evs', s', w'') := r' in
        Ret (evs ++ evs', s', w'')
      else Ret (evs, s, w')
  end.

(** [Writer::add_record_with_crc(slice, crc)] run with [fuel] passes. *)
Definition add_record_with_crc_fuel (fuel : nat) (w : Writer S)
    (slice : Slice) (crc : Z) : Outcome (list Event * Status * Writer S) :=
  let ptr := 0 in
  let left := size slice in
  let header_size :=
    if recycle_log_files_ w then kRecyclableHeaderSize else kHeaderSize in
  do_while fuel w header_size slice ptr left true crc.

(** Passes that always suffice: a pass either consumes a byte or fills the
    block, and the pass after a filled block consumes one. *)
Definition passes (slice : Slice) : nat := 2 * length slice + 2.

Definition add_record_with_crc (w : Writer S) (slice : Slice) (crc : Z)
    : Outcome (list Event * Status * Writer S) :=
  add_record_with_crc_fuel (passes slice) w slice crc.

(** [Writer::AddRecord(slice, crc)]. *)
Definition AddRecord_crc (w : Writer S) (slice : Slice) (crc : Z)
    : Outcome (list Event * Status * Writer S) :=
  add_record_with_crc w slice crc.

(** [Writer::AddRecord(slice)]. *)
Definition AddRecord (w : Writer S) (slice : Slice)
    : Outcome (list Event * Status * Writer S) :=
  AddRecord_crc w slice (calculate_crc slice).

End WriterCode.

(** * Vocabulary of the properties *)

(** ** Cursor, headers, identity *)

(** The header size of a framing mode. *)
Definition header_size_of (recycle : bool) : Z :=
  if recycle then kRecyclableHeaderSize else kHeaderSize.

(** The cursor after the block switch at the top of a pass. *)
Definition roll (hs bo : Z) : Z :=
  if kBlockSize - bo <? hs then 0 else bo.

(** The bytes [EmitPhysicalRecord] puts in front of a payload. *)
Definition header_of (recycle : bool) (log_number : Z) (t : RecordType)
    (n crc : Z) : Slice :=
  EncodeFixed32 crc
    ++ [char_of (Z.land n 255); char_of (Z.shiftr n 8); char_of (type_code t)]
    ++ (if recycle then EncodeFixed32 (to_uint32 log_number) else []).

Definition status_of (ret : Z) : Status :=
  if ret =? 0 then OK else IOError.

(** The cursor stays within its block. *)
Definition cursor_ok {S} (w : Writer S) : Prop :=
  0 <= block_offset_ w <= kBlockSize.

(** Two writer states of one writer: the identity never changes. *)
Definition same_identity {S} (w w' : Writer S) : Prop :=
  log_number_ w' = log_number_ w
  /\ recycle_log_files_ w' = recycle_log_files_ w
  /\ use_allocator_ w' = use_allocator_ w
  /\ type_crc_ w' = type_crc_ w.

(** ** The runs of the loop

    A run is described by what the sink saw, the sink's results being free:
    [Run bo ptr left begin evs s bo'] says that the loop entered with cursor
    [bo], [left] bytes to write from offset [ptr] and the flag [begin] can
    issue the calls [evs], end with status [s] and leave the cursor at
    [bo']. *)

Section RunDefinitions.

Variables (recycle : bool) (log_number crc : Z) (base : Slice).

Local Abbreviation hs := (header_size_of recycle).

(** The length of the fragment a pass emits. *)
Definition frag_len (bo left : Z) : Z :=
  Z.min left (kBlockSize - roll hs bo - hs).

(** The physical record a pass emits, given the sink's result. *)
Definition frag_event (bo ptr left : Z) (begin : bool) (ret : Z) : Event :=
  let n := frag_len bo left in
  EvPhys
    (header_of recycle log_number (fragment_type recycle begin (left =? n))
       n crc)
    (Slice_at base ptr n) ret.

(** The filler writes of a pass: one, of exactly the space left over, when
    that space is positive and too small for a header; none otherwise. *)
Definition fillers (bo : Z) (evs : list Event) : Prop :=
  (0 < kBlockSize - bo < hs
   /\ exists ret, evs = [EvPad (repeat x00 (Z.to_nat (kBlockSize - bo))) ret])
  \/ (~ 0 < kBlockSize - bo < hs /\ evs = []).

Inductive Run : Z -> Z -> Z -> bool -> list Event -> Status -> Z -> Prop :=
  | Run_rejected (bo ptr left : Z) (begin : bool) (pads : list Event)
      (ret : Z) :
      fillers bo pads -> ret <> 0 ->
      Run bo ptr left begin (pads ++ [frag_event bo ptr left begin ret])
        IOError (roll hs bo)
  | Run_last (bo ptr left : Z) (begin : bool) (pads : list Event) :
      fillers bo pads -> left - frag_len bo left <= 0 ->
      Run bo ptr left begin (pads ++ [frag_event bo ptr left begin 0])
        OK (roll hs bo + hs + frag_len bo left)
  | Run_more (bo ptr left : Z) (begin : bool) (pads evs : list Event)
      (s : Status) (bo' : Z) :
      fillers bo pads -> 0 < left - frag_len bo left ->
      Run (roll hs bo + hs + frag_len bo left) (ptr + frag_len bo left)
        (left - frag_len bo left) false evs s bo' ->
      Run bo ptr left begin (pads ++ frag_event bo ptr left begin 0 :: evs)
        s bo'.

End RunDefinitions.

(** Passes needed from a cursor [bo] with [left] bytes to write: a pass
    that cannot place a byte (the block has room for a header only) is
    followed by one that can. *)
Definition passes_needed (hs bo left : Z) : Z :=
  2 * left + (if kBlockSize - roll hs bo - hs =? 0 then 1 else 0) + 1.

(** ** Reading a trace and a header *)

(** The payload bytes of the physical records of a trace, in order. *)
Definition payloads (evs : list Event) : Slice :=
  flat_map (fun e => match e with
                     | EvPhys _ payload _ => payload
                     | EvPad _ _ => []
                     end) evs.

Definition is_phys (e : Event) : bool :=
  match e with EvPhys _ _ _ => true | EvPad _ _ => false end.

(** The physical records of a trace. *)
Definition phys_records (evs : list Event) : list Event := filter is_phys evs.

(** The sink's result for a call. *)
Definition result_of (e : Event) : Z :=
  match e with EvPad _ r => r | EvPhys _ _ r => r end.

(** The header fields as a reader finds them: bytes 0-3 the checksum,
    4-5 the length, 6 the type, 7-10 the log number (recyclable only). *)
Definition header_checksum (h : Slice) : Z := DecodeFixed32 h.
Definition header_length (h : Slice) : Z :=
  uchar (nth 4 h x00) + 256 * uchar (nth 5 h x00).
Definition header_type (h : Slice) : Z := uchar (nth 6 h x00).

(** A property of the header and payload of every physical record. *)
Definition each_record (P : Slice -> Slice -> Prop) (evs : list Event) : Prop :=
  Forall (fun e => match e with
                   | EvPhys h p _ => P h p
                   | EvPad _ _ => True
                   end) evs.

(** The zero bytes of the filler writes of a trace. *)
Definition filler_bytes (evs : list Event) : Slice :=
  flat_map (fun e => match e with
                     | EvPad filler _ => filler
                     | EvPhys _ _ _ => []
                     end) evs.

(** The writer a call leaves behind ([w] itself if the call did not
    return). *)
Definition writer_after {S} (w : Writer S)
    (o : Outcome (list Event * Status * Writer S)) : Writer S :=
  match o with
  | Ret (_, _, w') => w'
  | _ => w
  end.

(** The calls a returning call made of the sink. *)
Definition events_of {S} (o : Outcome (list Event * Status * Writer S))
    : list Event :=
  match o with
  | Ret (evs, _, _) => evs
  | _ => []
  end.

(** ** The states a writer goes through *)

Section ReachabilityDefinitions.

Context {S : Type} {sink : FileSink S} {crc32c : Crc32c}.

(** [evolves w0 w]: the state [w] comes from [w0] by calls of [AddRecord],
    in either form, whatever their status. *)
Inductive evolves (w0 : Writer S) : Writer S -> Prop :=
  | evolves_here : evolves w0 w0
  | evolves_AddRecord (w : Writer S) (slice : Slice) evs s (w' : Writer S) :
      evolves w0 w -> AddRecord w slice = Ret (evs, s, w') -> evolves w0 w'
  | evolves_AddRecord_crc (w : Writer S) (slice : Slice) (crc : Z) evs s
      (w' : Writer S) :
      evolves w0 w -> AddRecord_crc w slice crc = Ret (evs, s, w') ->
      evolves w0 w'.

(** The states of all writers: those a constructed writer evolves to. *)
Definition reachable (w : Writer S) : Prop :=
  exists dest log_number recycle use_allocator,
    evolves (Writer_new dest log_number recycle use_allocator) w.

End ReachabilityDefinitions.

(** ** Sinks, rejected calls, the checksum table *)

(** A sink that accepts every physical record. *)
Definition accepting (S : Type) {sink : FileSink S} : Prop :=
  forall (d : S) (header payload : Slice), snd (append2 d header payload) = 0.

(** The sink took the call. *)
Definition accepted (e : Event) : Prop := result_of e = 0.

(** The cursor after the given physical records went through, one after
    the other, each preceded by the block switch it needs: a record moves
    the cursor by its header and payload bytes. *)
Definition cursor_after (hs bo : Z) (recs : list Event) : Z :=
  fold_left (fun b e => match e with
                        | EvPhys h p _ => roll hs b + size h + size p
                        | EvPad _ _ => b
                        end) recs bo.

(** The bytes the writer counts as written by a trace: the fillers, whose
    result it does not look at, and the physical records the sink
    accepted. *)
Definition bytes_written (evs : list Event) : Z :=
  fold_right (fun e a => match e with
                         | EvPad filler _ => size filler
                         | EvPhys h p r =>
                             if r =? 0 then size h + size p else 0
                         end + a) 0 evs.

Definition set_type_crc {S} (w : Writer S) (tab : list Z) : Writer S :=
  mkWriter (dest_ w) (block_offset_ w) (log_number_ w) (recycle_log_files_ w)
           (use_allocator_ w) tab.

(** The outcome of a call, its writer changed by [f]. *)
Definition map_writer {S} (f : Writer S -> Writer S)
    (o : Outcome (list Event * Status * Writer S))
    : Outcome (list Event * Status * Writer S) :=
  match o with
  | Ret (evs, s, w) => Ret (evs, s, f w)
  | AssertFailed => AssertFailed
  | OutOfFuel => OutOfFuel
  end.

(** The checksum of a fragment's payload seeded by the table entry of the
    fragment's type byte, as [crc32c::Extend(type_crc_[t], ptr, n)] would
    give it. *)
Definition seeded_checksum {K : Crc32c} (tab : list Z) (h p : Slice) : Z :=
  to_uint32 (crc32c_Extend (nth (Z.to_nat (header_type h)) tab 0) p).

(** ** Stand-ins for the collaborators, for the worked examples *)

(** A sink driven by a script: each call consumes the next scripted result,
    and an exhausted script means success. *)
Definition ScriptSink : Type := list Z.

Definition script_append (d : ScriptSink) : ScriptSink * Z :=
  match d with
  | [] => ([], 0)
  | r :: d' => (d', r)
  end.

#[export] Instance script_sink : FileSink ScriptSink := {
  append d _ := script_append d;
  append2 d _ _ := script_append d
}.

(** A byte-sum checksum; the theorems below hold for every checksum. *)
Definition sum_bytes (s : Slice) : Z := fold_right (fun b a => uchar b + a) 0 s.

#[export] Instance sum32 : Crc32c := {
  crc32c_Value s := to_uint32 (sum_bytes s);
  crc32c_Extend seed s := to_uint32 (seed + sum_bytes s)
}.

(** A sink that keeps the bytes it is given and accepts every call. *)
Definition MemorySink : Type := Slice.

#[export] Instance memory_sink : FileSink MemorySink := {
  append d s := (d ++ s, 0);
  append2 d header payload := (d ++ header ++ payload, 0)
}.

(** The writer of the worked examples: legacy framing, log 7, a sink that
    accepts everything. *)
Definition example_writer : Writer ScriptSink :=
  Writer_new ([] : ScriptSink) 7 false false.

(** A writer in recycle mode whose log number does not fit 32 bits. *)
Definition example_recycling_writer : Writer ScriptSink :=
  Writer_new ([] : ScriptSink) (2 ^ 32 + 9) true false.

Definition example_memory_writer : Writer MemorySink :=
  Writer_new ([] : MemorySink) 7 false false.

(** The example writer after a record of 32758 bytes: 3 bytes are left in
    the block. *)
Definition example_writer_3_left : Writer ScriptSink :=
  writer_after example_writer
    (AddRecord example_writer (repeat x00 (Z.to_nat 32758))).

(** The example writer after a record of 32754 bytes: exactly a header's
    room is left in the block. *)
Definition example_writer_header_left : Writer ScriptSink :=
  writer_after example_writer
    (AddRecord example_writer (repeat x00 (Z.to_nat 32754))).

(** A writer whose sink rejects its fourth call, after a record that left
    14 bytes in the block. *)
Definition example_failing_writer : Writer ScriptSink :=
  writer_after (Writer_new ([0; 0; 5] : ScriptSink) 7 false false)
    (AddRecord (Writer_new ([0; 0; 5] : ScriptSink) 7 false false)
       (repeat x00 (Z.to_nat 32747))).

(** The statement that every header of [AddRecord(slice, crc)] on a fresh
    legacy writer carries the seeded checksum of its fragment. *)
Definition seeded_checksum_claim (K : Crc32c) (slice : Slice) (crc : Z) : Prop :=
  let w := @Writer_new ScriptSink K [] 7 false false in
  forall evs s w',
    @AddRecord_crc ScriptSink script_sink w slice crc = Ret (evs, s, w') ->
    each_record (fun h p => header_checksum h = seeded_checksum (type_crc_ w) h p)
      evs.

(** ** Framing of one logical record *)

(** The payload bytes of the physical records the sink accepted, in
    order. *)
Definition accepted_payloads (evs : list Event) : Slice :=
  flat_map (fun e => match e with
                     | EvPhys _ payload r => if r =? 0 then payload else []
                     | EvPad _ _ => []
                     end) evs.

(** The type codes of the physical records of a trace, in order. *)
Definition types_of (evs : list Event) : list Z :=
  flat_map (fun e => match e with
                     | EvPhys h _ _ => [header_type h]
                     | EvPad _ _ => []
                     end) evs.

(** The type code of each role in a framing mode. *)
Definition code_full (recycle : bool) : Z :=
  type_code (if recycle then kRecyclableFullType else kFullType).
Definition code_first (recycle : bool) : Z :=
  type_code (if recycle then kRecyclableFirstType else kFirstType).
Definition code_middle (recycle : bool) : Z :=
  type_code (if recycle then kRecyclableMiddleType else kMiddleType).
Definition code_last (recycle : bool) : Z :=
  type_code (if recycle then kRecyclableLastType else kLastType).

(** Middle codes closed by a Last code. *)
Fixpoint framed_rest (recycle : bool) (ts : list Z) : bool :=
  match ts with
  | [] => false
  | t :: rest =>
      match rest with
      | [] => t =? code_last recycle
      | _ :: _ => (t =? code_middle recycle) && framed_rest recycle rest
      end
  end.

(** The type codes a reader reassembles into one logical record: a single
    Full, or a First, any number of Middle, and a Last. *)
Definition framed (recycle : bool) (ts : list Z) : bool :=
  match ts with
  | [] => false
  | t :: rest =>
      match rest with
      | [] => t =? code_full recycle
      | _ :: _ => (t =? code_first recycle) && framed_rest recycle rest
      end
  end.

(** A writer whose sink rejects the filler write of the next block switch:
    3 bytes are left in the block and the next sink result is 9. *)
Definition example_writer_bad_filler : Writer ScriptSink :=
  writer_after (Writer_new ([0; 9] : ScriptSink) 7 false false)
    (AddRecord (Writer_new ([0; 9] : ScriptSink) 7 false false)
       (repeat x00 (Z.to_nat 32758))).

(** ** The cursor after a rejected fragment, read without the block switch *)

Section RejectedCursorStatement.

Context {S : Type} {sink : FileSink S} {crc32c : Crc32c}.

(** The statement that, when the sink rejects the physical record of index
    [k] of [AddRecord(slice, crc)], the call fails, emits nothing further,
    and leaves the cursor where the [k] accepted fragments before it had
    brought it (the initial cursor when there is none). *)
Definition cursor_of_accepted_fragments_claim (w : Writer S) (slice : Slice)
    (crc : Z) : Prop :=
  forall evs s w' (k : nat) (e : Event),
    AddRecord_crc w slice crc = Ret (evs, s, w') ->
    nth_error (phys_records evs) k = Some e ->
    result_of e <> 0 ->
    s = IOError
    /\ length (phys_records evs) = Datatypes.S k
    /\ block_offset_ w'
       = cursor_after (header_size_of (recycle_log_files_ w))
           (block_offset_ w) (firstn k (phys_records evs)).

End RejectedCursorStatement.

(** A writer with 3 bytes left in its block whose sink accepts the next
    call, the filler, and rejects the one after it. *)
Definition example_writer_rejected_first : Writer ScriptSink :=
  writer_after (Writer_new ([0; 0; 5] : ScriptSink) 7 false false)
    (AddRecord (Writer_new ([0; 0; 5] : ScriptSink) 7 false false)
       (repeat x00 (Z.to_nat 32758))).

(** * Properties *)

(** ** Integers and bytes: basic facts *)

Lemma to_size_t_small (z : Z) : 0 <= z < 2 ^ 64 -> to_size_t z = z.
Proof. intros H. unfold to_size_t. apply Z.mod_small. exact H. Qed.

Lemma to_int64_small (z : Z) : 0 <= z < 2 ^ 63 -> to_int64 z = z.
Proof.
  intros H. unfold to_int64.
  rewrite Z.mod_small; lia.
Qed.

Lemma to_uint32_small (z : Z) : 0 <= z < 2 ^ 32 -> to_uint32 z = z.
Proof. intros H. unfold to_uint32. apply Z.mod_small. exact H. Qed.

Lemma to_uint32_range (z : Z) : 0 <= to_uint32 z < 2 ^ 32.
Proof. unfold to_uint32. apply Z.mod_pos_bound. lia. Qed.

Lemma uchar_char_of (z : Z) : uchar (char_of z) = z mod 256.
Proof.
  unfold uchar, char_of.
  assert (Hr : 0 <= z mod 256 < 256) by (apply Z.mod_pos_bound; lia).
  destruct (Byte.of_N (Z.to_N (z mod 256))) as [b|] eqn:E.
  - apply Byte.to_of_N in E. rewrite E. apply Z2N.id. lia.
  - apply Byte.of_N_None_iff in E. lia.
Qed.

Lemma uchar_range (b : byte) : 0 <= uchar b <= 255.
Proof.
  unfold uchar. pose proof (Byte.to_N_bounded b). lia.
Qed.

Lemma land_255 (z : Z) : Z.land z 255 = z mod 256.
Proof. change 255 with (Z.ones 8). rewrite Z.land_ones by lia. reflexivity. Qed.

Lemma le_bytes_value (v : Z) :
  v mod 256 + 256 * ((v / 2 ^ 8) mod 256) + 65536 * ((v / 2 ^ 16) mod 256)
    + 16777216 * ((v / 2 ^ 24) mod 256) = v mod 2 ^ 32.
Proof.
  assert (E16 : v / 2 ^ 16 = v / 2 ^ 8 / 2 ^ 8)
    by (rewrite Z.div_div by lia; reflexivity).
  assert (E24 : v / 2 ^ 24 = v / 2 ^ 8 / 2 ^ 8 / 2 ^ 8)
    by (rewrite !Z.div_div by lia; reflexivity).
  assert (E32 : v / 2 ^ 32 = v / 2 ^ 8 / 2 ^ 8 / 2 ^ 8 / 2 ^ 8)
    by (rewrite !Z.div_div by lia; reflexivity).
  rewrite (Z.mod_eq v (2 ^ 32)) by lia.
  rewrite E16, E24, E32.
  change (2 ^ 8) with 256.
  pose proof (Z.div_mod v 256).
  pose proof (Z.div_mod (v / 256) 256).
  pose proof (Z.div_mod (v / 256 / 256) 256).
  pose proof (Z.div_mod (v / 256 / 256 / 256) 256).
  change (2 ^ 32) with 4294967296.
  lia.
Qed.

(** Decoding what [EncodeFixed32] wrote gives the low 32 bits back. *)
Lemma DecodeFixed32_EncodeFixed32 (v : Z) (rest : Slice) :
  DecodeFixed32 (EncodeFixed32 v ++ rest) = to_uint32 v.
Proof.
  unfold EncodeFixed32, DecodeFixed32, to_uint32. cbn [app].
  rewrite !uchar_char_of, !land_255, !Z.mod_mod by lia.
  rewrite !Z.shiftr_div_pow2 by lia.
  apply le_bytes_value.
Qed.

Lemma EncodeFixed32_length (v : Z) : length (EncodeFixed32 v) = 4%nat.
Proof. reflexivity. Qed.

(** ** Slices of the caller's buffer *)

Lemma Slice_at_whole (s : Slice) : Slice_at s 0 (size s) = s.
Proof.
  unfold Slice_at, size. rewrite Nat2Z.id. cbn [Z.to_nat skipn].
  apply firstn_all.
Qed.

Lemma Slice_at_split (base : Slice) (ptr n m : Z) :
  0 <= ptr -> 0 <= n -> 0 <= m ->
  Slice_at base ptr n ++ Slice_at base (ptr + n) m = Slice_at base ptr (n + m).
Proof.
  intros Hp Hn Hm. unfold Slice_at.
  rewrite !Z2Nat.inj_add by lia.
  rewrite Nat.add_comm, <- skipn_skipn.
  set (l := skipn (Z.to_nat ptr) base).
  rewrite <- (firstn_skipn (Z.to_nat n) l) at 3.
  rewrite firstn_app, firstn_firstn.
  rewrite Nat.min_r by lia.
  rewrite length_firstn.
  destruct (Nat.le_ge_cases (Z.to_nat n) (length l)) as [Hl | Hl].
  - rewrite Nat.min_l by lia.
    replace (Z.to_nat n + Z.to_nat m - Z.to_nat n)%nat with (Z.to_nat m) by lia.
    reflexivity.
  - rewrite (skipn_all2 l) by lia. rewrite !firstn_nil. reflexivity.
Qed.

Lemma Slice_at_length (base : Slice) (ptr n : Z) :
  0 <= ptr -> 0 <= n -> ptr + n <= size base ->
  size (Slice_at base ptr n) = n.
Proof.
  intros Hp Hn Hle. unfold Slice_at, size in *.
  rewrite length_firstn, length_skipn. lia.
Qed.

Lemma Slice_at_length_le (base : Slice) (ptr n : Z) :
  0 <= n -> size (Slice_at base ptr n) <= n.
Proof.
  intros Hn. unfold Slice_at, size.
  rewrite length_firstn. lia.
Qed.

Lemma Slice_at_zero (base : Slice) (ptr : Z) : Slice_at base ptr 0 = [].
Proof. reflexivity. Qed.

(** ** One pass of the loop, without the machine arithmetic *)

Lemma same_identity_refl {S} (w : Writer S) : same_identity w w.
Proof. repeat split. Qed.

Lemma same_identity_trans {S} (a b c : Writer S) :
  same_identity a b -> same_identity b c -> same_identity a c.
Proof.
  unfold same_identity. intros (H1 & H2 & H3 & H4) (H5 & H6 & H7 & H8).
  repeat split; congruence.
Qed.

Lemma header_size_of_range (recycle : bool) :
  0 < header_size_of recycle <= 11.
Proof. destruct recycle; cbv; split; congruence. Qed.

Lemma roll_range (hs bo : Z) :
  0 < hs <= kBlockSize -> 0 <= bo <= kBlockSize ->
  0 <= roll hs bo <= kBlockSize - hs.
Proof.
  intros Hh Hb. unfold roll.
  destruct (kBlockSize - bo <? hs) eqn:E.
  - lia.
  - apply Z.ltb_ge in E. lia.
Qed.

Lemma firstn_repeat_le {A} (a : A) (n m : nat) :
  (n <= m)%nat -> firstn n (repeat a m) = repeat a n.
Proof.
  revert m. induction n as [|n IH]; intros m Hle.
  - reflexivity.
  - destruct m as [|m]; [lia|]. cbn. f_equal. apply IH. lia.
Qed.

Lemma fragment_type_legacy (recycle begin end_ : bool) :
  (type_code (fragment_type recycle begin end_)
     <? type_code kRecyclableFullType) = negb recycle.
Proof. destruct recycle, begin, end_; reflexivity. Qed.

Section Pass.

Context {S : Type} {sink : FileSink S} {crc32c : Crc32c}.

(** [EmitPhysicalRecord] when its asserted preconditions hold. *)
Lemma EmitPhysicalRecord_eq (w : Writer S) (begin end_ : bool)
    (base : Slice) (ptr n crc : Z) :
  let recycle := recycle_log_files_ w in
  let hs := header_size_of recycle in
  let t := fragment_type recycle begin end_ in
  0 <= n <= 65535 -> 0 <= block_offset_ w ->
  block_offset_ w + hs + n <= kBlockSize ->
  EmitPhysicalRecord w t base ptr n crc =
    let header := header_of recycle (log_number_ w) t n crc in
    let payload := Slice_at base ptr n in
    let '(dest', ret) := append2 (dest_ w) header payload in
    Ret ([EvPhys header payload ret], status_of ret,
         if ret =? 0
         then set_block_offset (set_dest w dest') (block_offset_ w + hs + n)
         else set_dest w dest').
Proof.
  intros recycle hs t Hn Hb Hfit.
  unfold EmitPhysicalRecord.
  replace (n <=? 65535) with true by (symmetry; apply Z.leb_le; lia).
  cbn [assertion bind].
  fold recycle. fold t. unfold t at 1.
  rewrite fragment_type_legacy.
  assert (Hk : 0 < kBlockSize < 2 ^ 64) by (cbv; split; reflexivity).
  subst hs. unfold header_of, status_of.
  destruct recycle; cbn [negb header_size_of] in *.
  - rewrite to_size_t_small by (unfold kRecyclableHeaderSize in *; lia).
    replace (_ <=? kBlockSize) with true by (symmetry; apply Z.leb_le; lia).
    cbn [assertion bind].
    change (firstn (Z.to_nat kRecyclableHeaderSize) ?l) with l.
    destruct (append2 _ _ _) as [d r].
    rewrite to_size_t_small by (unfold kRecyclableHeaderSize in *; lia).
    destruct (r =? 0); reflexivity.
  - rewrite to_size_t_small by (unfold kHeaderSize in *; lia).
    replace (_ <=? kBlockSize) with true by (symmetry; apply Z.leb_le; lia).
    cbn [assertion bind].
    change (firstn (Z.to_nat kHeaderSize) ?l) with l.
    destruct (append2 _ _ _) as [d r].
    rewrite to_size_t_small by (unfold kHeaderSize in *; lia).
    destruct (r =? 0); reflexivity.
Qed.

(** The block switch when the cursor is within its block. *)
Lemma switch_block_eq (w : Writer S) (hs : Z) :
  cursor_ok w -> 0 < hs <= 11 ->
  switch_block w hs =
    let leftover := kBlockSize - block_offset_ w in
    if leftover <? hs then
      if 0 <? leftover then
        let filler := repeat x00 (Z.to_nat leftover) in
        let '(dest', ret) := append (dest_ w) filler in
        Ret ([EvPad filler ret], set_block_offset (set_dest w dest') 0)
      else Ret ([], set_block_offset w 0)
    else Ret ([], w).
Proof.
  intros Hc Hh. unfold cursor_ok in Hc.
  assert (Hk : kBlockSize = 32768) by reflexivity.
  unfold switch_block.
  rewrite (to_size_t_small (kBlockSize - block_offset_ w)) by lia.
  rewrite (to_int64_small (kBlockSize - block_offset_ w)) by lia.
  replace (0 <=? kBlockSize - block_offset_ w) with true
    by (symmetry; apply Z.leb_le; lia).
  cbn [assertion bind]. cbv zeta.
  destruct (kBlockSize - block_offset_ w <? hs) eqn:E1.
  - apply Z.ltb_lt in E1.
    destruct (0 <? kBlockSize - block_offset_ w) eqn:E2.
    + replace (hs <=? 11) with true by (symmetry; apply Z.leb_le; lia).
      cbn [assertion bind]. unfold filler_literal.
      rewrite firstn_repeat_le by lia.
      destruct (append _ _) as [d r]. cbn [bind block_offset_ set_block_offset].
      rewrite to_size_t_small, to_int64_small by lia.
      replace (hs <=? kBlockSize - 0) with true
        by (symmetry; apply Z.leb_le; lia).
      reflexivity.
    + cbn [bind block_offset_ set_block_offset].
      rewrite to_size_t_small, to_int64_small by lia.
      replace (hs <=? kBlockSize - 0) with true
        by (symmetry; apply Z.leb_le; lia).
      reflexivity.
  - apply Z.ltb_ge in E1. cbn [bind].
    rewrite to_size_t_small, to_int64_small by lia.
    replace (hs <=? kBlockSize - block_offset_ w) with true
      by (symmetry; apply Z.leb_le; lia).
    reflexivity.
Qed.

End Pass.

Section FragmentLength.

Variable recycle : bool.

Local Abbreviation hs := (header_size_of recycle).

Lemma frag_len_range (bo left : Z) :
  0 <= bo <= kBlockSize -> 0 <= left ->
  0 <= frag_len recycle bo left <= left
  /\ frag_len recycle bo left <= kBlockSize - roll hs bo - hs.
Proof.
  intros Hb Hl. unfold frag_len.
  pose proof (header_size_of_range recycle) as Hh.
  assert (Hr : 0 <= roll hs bo <= kBlockSize - hs)
    by (apply roll_range; [unfold kBlockSize; lia | exact Hb]).
  lia.
Qed.

End FragmentLength.

Lemma min_by_test (a b : Z) : (if a <? b then a else b) = Z.min a b.
Proof. destruct (a <? b) eqn:E; [apply Z.ltb_lt in E | apply Z.ltb_ge in E]; lia. Qed.

Section PassSpec.

Context {S : Type} {sink : FileSink S} {crc32c : Crc32c}.

Lemma switch_block_spec (w : Writer S) :
  let hs := header_size_of (recycle_log_files_ w) in
  cursor_ok w ->
  exists pads w1,
    switch_block w hs = Ret (pads, w1)
    /\ fillers (recycle_log_files_ w) (block_offset_ w) pads
    /\ same_identity w w1
    /\ block_offset_ w1 = roll hs (block_offset_ w).
Proof.
  intros hs Hc.
  pose proof (header_size_of_range (recycle_log_files_ w)) as Hh. fold hs in Hh.
  rewrite switch_block_eq by assumption. cbv zeta.
  unfold fillers, roll. fold hs.
  destruct (kBlockSize - block_offset_ w <? hs) eqn:E1.
  - apply Z.ltb_lt in E1.
    destruct (0 <? kBlockSize - block_offset_ w) eqn:E2.
    + apply Z.ltb_lt in E2.
      destruct (append _ _) as [d r] eqn:Ea.
      eexists _, _. split; [reflexivity|].
      split; [left; split; [lia | eexists; reflexivity] |].
      split; [repeat split | reflexivity].
    + apply Z.ltb_ge in E2.
      eexists _, _. split; [reflexivity|].
      split; [right; split; [lia | reflexivity] |].
      split; [repeat split | reflexivity].
  - apply Z.ltb_ge in E1.
    eexists _, _. split; [reflexivity|].
    split; [right; split; [lia | reflexivity] |].
    split; [repeat split | reflexivity].
Qed.

(** One pass from a cursor within its block: the filler writes, then one
    physical record; the cursor advances only when the sink accepts it. *)
Lemma loop_body_spec (w : Writer S) (base : Slice) (ptr left : Z)
    (begin : bool) (crc : Z) :
  let recycle := recycle_log_files_ w in
  let hs := header_size_of recycle in
  let bo := block_offset_ w in
  let n := frag_len recycle bo left in
  cursor_ok w -> 0 <= left ->
  exists pads ret w2,
    loop_body w hs base ptr left begin crc =
      Ret (pads ++ [frag_event recycle (log_number_ w) crc base bo ptr left
                      begin ret],
           status_of ret, w2, ptr + n, left - n)
    /\ fillers recycle bo pads
    /\ same_identity w w2
    /\ block_offset_ w2 = (if ret =? 0 then roll hs bo + hs + n else roll hs bo)
    /\ (exists d header payload, ret = snd (append2 d header payload)).
Proof.
  intros recycle hs bo n Hc Hl.
  destruct (switch_block_spec w Hc) as (pads & w1 & Hsw & Hpads & Hid & Hbo).
  cbv zeta in Hsw.
  fold recycle in Hsw, Hpads, Hbo. fold hs in Hsw, Hbo. fold bo in Hpads, Hbo.
  pose proof (header_size_of_range recycle) as Hh. fold hs in Hh.
  pose proof (frag_len_range recycle bo left Hc Hl) as [Hn Hn'].
  fold n in Hn, Hn'. fold hs in Hn'.
  assert (Hr : 0 <= roll hs bo <= kBlockSize - hs)
    by (apply roll_range; [unfold kBlockSize; lia | exact Hc]).
  assert (Hk : kBlockSize = 32768) by reflexivity.
  destruct Hid as (Hlog & Hrec & Hua & Htab).
  unfold loop_body. rewrite Hsw. cbn [bind]. cbv zeta.
  rewrite Hbo, Hrec. fold recycle.
  rewrite to_size_t_small by lia.
  rewrite min_by_test. change (Z.min left _) with n.
  pose proof (EmitPhysicalRecord_eq w1 begin (left =? n) base ptr n crc) as He.
  cbv zeta in He. rewrite Hrec, Hbo, Hlog in He. fold recycle in He. fold hs in He.
  rewrite He by lia. clear He.
  unfold frag_event. fold recycle. fold bo. fold n.
  destruct (append2 _ _ _) as [d r] eqn:Ea.
  cbn [bind].
  exists pads, r.
  assert (Hsink : exists d header payload, r = snd (append2 d header payload))
    by (eexists _, _, _; rewrite Ea; reflexivity).
  destruct (r =? 0) eqn:Er.
  - eexists. split; [reflexivity|]. split; [exact Hpads|].
    split; [|split; [cbn; reflexivity | exact Hsink]].
    destruct w1; cbn in *. repeat split; assumption.
  - eexists. split; [reflexivity|]. split; [exact Hpads|].
    split; [|split; [cbn; exact Hbo | exact Hsink]].
    destruct w1; cbn in *. repeat split; assumption.
Qed.

End PassSpec.

(** ** The loop terminates and its calls form a run *)

Section LoopSpec.

Context {S : Type} {sink : FileSink S} {crc32c : Crc32c}.

Lemma do_while_Run (recycle : bool) (log_number crc : Z) (base : Slice) :
  forall (fuel : nat) (w : Writer S) (ptr left : Z) (begin : bool),
    recycle_log_files_ w = recycle -> log_number_ w = log_number ->
    cursor_ok w -> 0 <= left ->
    passes_needed (header_size_of recycle) (block_offset_ w) left
      <= Z.of_nat fuel ->
    exists evs s w',
      do_while fuel w (header_size_of recycle) base ptr left begin crc
        = Ret (evs, s, w')
      /\ Run recycle log_number crc base (block_offset_ w) ptr left begin
           evs s (block_offset_ w')
      /\ same_identity w w'
      /\ cursor_ok w'.
Proof.
  pose proof (header_size_of_range recycle) as Hh.
  assert (Hk : kBlockSize = 32768) by reflexivity.
  induction fuel as [|fuel IH]; intros w ptr left begin Hrec Hlog Hc Hl Hfuel.
  - exfalso. unfold passes_needed in Hfuel.
    destruct (_ =? 0); lia.
  - destruct (loop_body_spec w base ptr left begin crc Hc Hl)
      as (pads & ret & w2 & Hbody & Hpads & Hid & Hbo2 & _).
    cbv zeta in Hbody, Hpads, Hbo2.
    rewrite ?Hrec, ?Hlog in Hbody. rewrite ?Hrec in Hpads, Hbo2.
    pose proof (frag_len_range recycle (block_offset_ w) left Hc Hl)
      as [Hn Hn'].
    assert (Hr : 0 <= roll (header_size_of recycle) (block_offset_ w)
                   <= kBlockSize - header_size_of recycle)
      by (apply roll_range; [lia | exact Hc]).
    cbn [do_while]. rewrite Hbody. cbn [bind].
    unfold status_of.
    destruct (ret =? 0) eqn:Er; cbn [ok andb].
    + apply Z.eqb_eq in Er. subst ret.
      destruct (0 <? left - frag_len recycle (block_offset_ w) left) eqn:Emore.
      * apply Z.ltb_lt in Emore.
        destruct Hid as (Hlog2 & Hrec2 & Hua2 & Htab2).
        assert (Hc2 : cursor_ok w2) by (unfold cursor_ok; rewrite Hbo2; lia).
        destruct (IH w2 (ptr + frag_len recycle (block_offset_ w) left)
                    (left - frag_len recycle (block_offset_ w) left) false)
          as (evs & s & w3 & Hrun & HRun & Hid3 & Hc3).
        -- congruence.
        -- congruence.
        -- exact Hc2.
        -- lia.
        -- rewrite Hbo2. unfold passes_needed in *.
           unfold frag_len, roll in *.
           repeat match goal with
                  | |- context [if ?b then _ else _] => destruct b eqn:?
                  | H : context [if ?b then _ else _] |- _ => destruct b eqn:?
                  end;
           repeat match goal with
                  | H : (_ <? _) = true |- _ => apply Z.ltb_lt in H
                  | H : (_ <? _) = false |- _ => apply Z.ltb_ge in H
                  | H : (_ =? _) = true |- _ => apply Z.eqb_eq in H
                  | H : (_ =? _) = false |- _ => apply Z.eqb_neq in H
                  end; lia.
        -- rewrite Hrun. cbn [bind].
           eexists _, _, _. split; [reflexivity|].
           split.
           ++ rewrite <- app_assoc. cbn [app].
              apply Run_more; [exact Hpads | exact Emore |].
              rewrite Hbo2 in HRun. exact HRun.
           ++ split; [|exact Hc3].
              apply same_identity_trans with w2; [|exact Hid3].
              repeat split; assumption.
      * apply Z.ltb_ge in Emore.
        eexists _, _, _. split; [reflexivity|].
        split.
        -- rewrite Hbo2. apply Run_last; assumption.
        -- split; [exact Hid|]. unfold cursor_ok. rewrite Hbo2. lia.
    + apply Z.eqb_neq in Er.
      eexists _, _, _. split; [reflexivity|].
      split.
      * rewrite Hbo2. apply Run_rejected; assumption.
      * split; [exact Hid|]. unfold cursor_ok. rewrite Hbo2. lia.
Qed.

(** More fuel never changes the outcome of a loop that had enough. *)
Lemma do_while_more_fuel_outcome (hs : Z) (base : Slice) (crc : Z) :
  forall (fuel extra : nat) (w : Writer S) (ptr left : Z) (begin : bool),
    do_while fuel w hs base ptr left begin crc <> OutOfFuel ->
    do_while (fuel + extra) w hs base ptr left begin crc
      = do_while fuel w hs base ptr left begin crc.
Proof.
  induction fuel as [|fuel IH]; intros extra w ptr left begin H.
  - exfalso. apply H. reflexivity.
  - cbn [do_while Nat.add] in *.
    destruct (loop_body w hs base ptr left begin crc)
      as [[[[[evs s] w'] ptr'] left']| |]; cbn [bind] in *; try reflexivity.
    destruct (ok s && (0 <? left')); [|reflexivity].
    rewrite IH; [reflexivity|].
    intros E. rewrite E in H. apply H. reflexivity.
Qed.

Lemma do_while_more_fuel (hs : Z) (base : Slice) (crc : Z) :
  forall (fuel extra : nat) (w : Writer S) (ptr left : Z) (begin : bool) r,
    do_while fuel w hs base ptr left begin crc = Ret r ->
    do_while (fuel + extra) w hs base ptr left begin crc = Ret r.
Proof.
  intros fuel extra w ptr left begin r H.
  rewrite do_while_more_fuel_outcome; [exact H|].
  rewrite H. discriminate.
Qed.

Lemma passes_enough (recycle : bool) (bo : Z) (slice : Slice) :
  passes_needed (header_size_of recycle) bo (size slice)
    <= Z.of_nat (passes slice).
Proof.
  unfold passes_needed, passes, size.
  destruct (_ =? 0); lia.
Qed.

(** [add_record_with_crc] returns from every cursor within its block, and
    what it asked of the sink is a run over the whole slice. *)
Lemma add_record_with_crc_Run (w : Writer S) (slice : Slice) (crc : Z) :
  cursor_ok w ->
  exists evs s w',
    add_record_with_crc w slice crc = Ret (evs, s, w')
    /\ Run (recycle_log_files_ w) (log_number_ w) crc slice
         (block_offset_ w) 0 (size slice) true evs s (block_offset_ w')
    /\ same_identity w w'
    /\ cursor_ok w'.
Proof.
  intros Hc. unfold add_record_with_crc, add_record_with_crc_fuel.
  apply do_while_Run; try reflexivity; try assumption.
  - unfold size. lia.
  - apply passes_enough.
Qed.

End LoopSpec.

(** ** Headers and traces: basic facts *)

Lemma header_checksum_of (recycle : bool) (ln : Z) (t : RecordType) (n crc : Z) :
  header_checksum (header_of recycle ln t n crc) = to_uint32 crc.
Proof. unfold header_checksum, header_of. apply DecodeFixed32_EncodeFixed32. Qed.

Lemma header_type_of (recycle : bool) (ln : Z) (t : RecordType) (n crc : Z) :
  header_type (header_of recycle ln t n crc) = type_code t.
Proof.
  unfold header_type, header_of, EncodeFixed32. cbn [app nth].
  rewrite uchar_char_of. destruct t; reflexivity.
Qed.

Lemma header_length_of (recycle : bool) (ln : Z) (t : RecordType) (n crc : Z) :
  0 <= n <= 65535 ->
  header_length (header_of recycle ln t n crc) = n.
Proof.
  intros Hn. unfold header_length, header_of, EncodeFixed32. cbn [app nth].
  rewrite !uchar_char_of, land_255, Z.mod_mod by lia.
  rewrite Z.shiftr_div_pow2 by lia. change (2 ^ 8) with 256.
  rewrite (Z.mod_small (n / 256)).
  - pose proof (Z.div_mod n 256). lia.
  - split; [apply Z.div_pos; lia | apply Z.div_lt_upper_bound; lia].
Qed.


Lemma header_of_legacy (ln : Z) (t : RecordType) (n crc : Z) :
  length (header_of false ln t n crc) = 7%nat.
Proof. reflexivity. Qed.

Lemma fillers_payloads (recycle : bool) (bo : Z) (pads : list Event) :
  fillers recycle bo pads -> payloads pads = [] /\ phys_records pads = [].
Proof.
  intros [[_ [r ->]] | [_ ->]]; split; reflexivity.
Qed.

Lemma payloads_app (a b : list Event) :
  payloads (a ++ b) = payloads a ++ payloads b.
Proof. unfold payloads. apply flat_map_app. Qed.

Lemma phys_records_app (a b : list Event) :
  phys_records (a ++ b) = phys_records a ++ phys_records b.
Proof. unfold phys_records. apply filter_app. Qed.

(** ** Properties of runs *)

Section RunFacts.

Variables (recycle : bool) (log_number crc : Z) (base : Slice).

Local Abbreviation hs := (header_size_of recycle).

Lemma Run_next_cursor (bo left : Z) :
  0 <= bo <= kBlockSize -> 0 <= left ->
  0 <= roll hs bo + hs + frag_len recycle bo left <= kBlockSize.
Proof.
  intros Hb Hl.
  pose proof (header_size_of_range recycle) as Hh.
  pose proof (frag_len_range recycle bo left Hb Hl) as [Hn Hn'].
  assert (Hr : 0 <= roll hs bo <= kBlockSize - hs)
    by (apply roll_range; [unfold kBlockSize; lia | exact Hb]).
  lia.
Qed.

(** A property of every fragment a pass can emit holds of every physical
    record of a run. *)
Lemma Run_each_record (P : Slice -> Slice -> Prop) :
  (forall bo ptr left begin,
      0 <= bo <= kBlockSize -> 0 <= ptr -> 0 <= left ->
      ptr + left <= size base ->
      let n := frag_len recycle bo left in
      P (header_of recycle log_number
           (fragment_type recycle begin (left =? n)) n crc)
        (Slice_at base ptr n)) ->
  forall bo ptr left begin evs s bo',
    Run recycle log_number crc base bo ptr left begin evs s bo' ->
    0 <= bo <= kBlockSize -> 0 <= ptr -> 0 <= left ->
    ptr + left <= size base ->
    each_record P evs.
Proof.
  intros HP bo ptr left begin evs s bo' HR.
  assert (Hpads : forall b pads, fillers recycle b pads ->
                                 each_record P pads).
  { intros b pads [[_ [r ->]] | [_ ->]]; repeat constructor. }
  induction HR as [bo ptr left begin pads ret Hf Hret
                  | bo ptr left begin pads Hf Hlast
                  | bo ptr left begin pads evs s bo' Hf Hmore HR IH];
    intros Hb Hp Hl Hsz; unfold each_record in *.
  - apply Forall_app. split; [eapply Hpads; eassumption|].
    constructor; [|constructor]. apply HP; assumption.
  - apply Forall_app. split; [eapply Hpads; eassumption|].
    constructor; [|constructor]. apply HP; assumption.
  - pose proof (frag_len_range recycle bo left Hb Hl) as [Hn Hn'].
    apply Forall_app. split; [eapply Hpads; eassumption|].
    constructor; [apply HP; assumption|].
    apply IH; try lia. apply Run_next_cursor; assumption.
Qed.

(** Round trip: a run that ends well has handed over, in order, exactly the
    bytes it was asked to write. *)
Lemma Run_payloads :
  forall bo ptr left begin evs s bo',
    Run recycle log_number crc base bo ptr left begin evs s bo' ->
    s = OK ->
    0 <= bo <= kBlockSize -> 0 <= ptr -> 0 <= left ->
    payloads evs = Slice_at base ptr left.
Proof.
  intros bo ptr left begin evs s bo' HR.
  induction HR as [bo ptr left begin pads ret Hf Hret
                  | bo ptr left begin pads Hf Hlast
                  | bo ptr left begin pads evs s bo' Hf Hmore HR IH];
    intros Hs Hb Hp Hl.
  - discriminate.
  - pose proof (frag_len_range recycle bo left Hb Hl) as [Hn Hn'].
    rewrite payloads_app.
    destruct (fillers_payloads _ _ _ Hf) as [-> _].
    cbn. rewrite app_nil_r.
    replace (frag_len recycle bo left) with left by lia. reflexivity.
  - pose proof (frag_len_range recycle bo left Hb Hl) as [Hn Hn'].
    rewrite payloads_app.
    destruct (fillers_payloads _ _ _ Hf) as [-> _].
    cbn [app payloads flat_map frag_event].
    fold (payloads evs).
    rewrite IH; try assumption; try lia.
    + rewrite Slice_at_split by lia. f_equal. lia.
    + apply Run_next_cursor; assumption.
Qed.

End RunFacts.

(** ** Invariants of the reachable states *)

Section Reachability.

Context {S : Type} {sink : FileSink S} {crc32c : Crc32c}.

Lemma reachable_new (dest : S) (log_number : Z) (recycle ua : bool) :
  reachable (Writer_new dest log_number recycle ua).
Proof. exists dest, log_number, recycle, ua. constructor. Qed.

(** What a returning [AddRecord(slice, crc)] did, from a cursor within its
    block. *)
Lemma AddRecord_crc_Run (w : Writer S) (slice : Slice) (crc : Z) evs s w' :
  cursor_ok w ->
  AddRecord_crc w slice crc = Ret (evs, s, w') ->
  Run (recycle_log_files_ w) (log_number_ w) crc slice
    (block_offset_ w) 0 (size slice) true evs s (block_offset_ w')
  /\ same_identity w w'
  /\ cursor_ok w'.
Proof.
  intros Hc H.
  destruct (add_record_with_crc_Run w slice crc Hc)
    as (evs0 & s0 & w0 & H0 & HR & Hid & Hc').
  unfold AddRecord_crc in H. rewrite H0 in H.
  injection H as <- <- <-. auto.
Qed.

Lemma AddRecord_crc_returns (w : Writer S) (slice : Slice) (crc : Z) :
  cursor_ok w -> exists evs s w', AddRecord_crc w slice crc = Ret (evs, s, w').
Proof.
  intros Hc.
  destruct (add_record_with_crc_Run w slice crc Hc)
    as (evs0 & s0 & w0 & H0 & _).
  exists evs0, s0, w0. exact H0.
Qed.

Lemma evolves_invariant (w0 w : Writer S) :
  cursor_ok w0 -> evolves w0 w -> cursor_ok w /\ same_identity w0 w.
Proof.
  intros Hc0 Hev.
  induction Hev as [| w slice evs s w' _ [IHc IHid] Hcall
                    | w slice crc evs s w' _ [IHc IHid] Hcall].
  - split; [exact Hc0 | apply same_identity_refl].
  - apply AddRecord_crc_Run in Hcall; [|exact IHc].
    destruct Hcall as (_ & Hid & Hc'). split; [exact Hc'|].
    eapply same_identity_trans; eassumption.
  - apply AddRecord_crc_Run in Hcall; [|exact IHc].
    destruct Hcall as (_ & Hid & Hc'). split; [exact Hc'|].
    eapply same_identity_trans; eassumption.
Qed.

Lemma Writer_new_cursor_ok (dest : S) (log_number : Z) (recycle ua : bool) :
  cursor_ok (Writer_new dest log_number recycle ua).
Proof. unfold cursor_ok, Writer_new, kBlockSize. cbn. lia. Qed.

(** The cursor of a reachable state is within its block. *)
Lemma reachable_cursor_ok (w : Writer S) : reachable w -> cursor_ok w.
Proof.
  intros (d & ln & r & ua & Hev).
  apply (evolves_invariant _ _ (Writer_new_cursor_ok d ln r ua) Hev).
Qed.

End Reachability.

(** ** Round trip *)

Section RoundTrip.

Context {S : Type} {sink : FileSink S} {crc32c : Crc32c}.

(** C1.  From every reachable state and for every logical record, empty
    ones included, [AddRecord] returns; and when it returns success, in
    either form, the payload bytes of the physical records it emitted,
    concatenated in order, are exactly the bytes of the record. *)
Theorem AddRecord_payload_roundtrip (w : Writer S) (slice : Slice) (crc : Z) :
  reachable w ->
  (exists evs s w', AddRecord_crc w slice crc = Ret (evs, s, w'))
  /\ (forall evs w',
         AddRecord_crc w slice crc = Ret (evs, OK, w') -> payloads evs = slice)
  /\ (forall evs w',
         AddRecord w slice = Ret (evs, OK, w') -> payloads evs = slice).
Proof.
  intros Hr. pose proof (reachable_cursor_ok w Hr) as Hc.
  assert (Hgen : forall c evs w',
             AddRecord_crc w slice c = Ret (evs, OK, w') ->
             payloads evs = slice).
  { intros c evs w' H.
    apply AddRecord_crc_Run in H; [|exact Hc].
    destruct H as (HR & _ & _).
    rewrite (Run_payloads _ _ _ _ _ _ _ _ _ _ _ HR eq_refl Hc);
      [apply Slice_at_whole | lia | unfold size; lia]. }
  split; [apply AddRecord_crc_returns; exact Hc|].
  split; [apply Hgen|].
  intros evs w' H. exact (Hgen _ _ _ H).
Qed.

End RoundTrip.

Lemma AddRecord_payload_roundtrip_witness :
  reachable example_writer
  /\ (exists evs s w',
         AddRecord_crc example_writer [x01; x02; x03] 9 = Ret (evs, s, w'))
  /\ (forall evs w',
         AddRecord_crc example_writer [x01; x02; x03] 9 = Ret (evs, OK, w') ->
         payloads evs = [x01; x02; x03])
  /\ (forall evs w',
         AddRecord example_writer [x01; x02; x03] = Ret (evs, OK, w') ->
         payloads evs = [x01; x02; x03]).
Proof.
  split.
  - apply reachable_new.
  - apply (AddRecord_payload_roundtrip example_writer [x01; x02; x03] 9).
    apply reachable_new.
Defined.

(** ** Headers: checksum, log number, length *)




Section Headers.

Context {S : Type} {sink : FileSink S} {crc32c : Crc32c}.

Lemma AddRecord_crc_each_record (P : Slice -> Slice -> Prop)
    (w : Writer S) (slice : Slice) (crc : Z) evs s w' :
  cursor_ok w ->
  (forall bo ptr left begin,
      0 <= bo <= kBlockSize -> 0 <= ptr -> 0 <= left ->
      ptr + left <= size slice ->
      let n := frag_len (recycle_log_files_ w) bo left in
      P (header_of (recycle_log_files_ w) (log_number_ w)
           (fragment_type (recycle_log_files_ w) begin (left =? n)) n crc)
        (Slice_at slice ptr n)) ->
  AddRecord_crc w slice crc = Ret (evs, s, w') ->
  each_record P evs.
Proof.
  intros Hc HP H.
  apply AddRecord_crc_Run in H; [|exact Hc].
  destruct H as (HR & _ & _).
  eapply Run_each_record; [exact HP | exact HR | exact Hc | lia | | lia].
  unfold size. lia.
Qed.



(** C9.  From every reachable state no assertion of the loop or of
    [EmitPhysicalRecord] fires, however far the loop is run; the call
    returns, and every physical record it emitted has a fragment of at most
    65535 bytes, which is the length its header records. *)
Theorem fragment_length_bound (w : Writer S) (slice : Slice) (crc : Z) :
  reachable w ->
  (forall fuel, add_record_with_crc_fuel fuel w slice crc <> AssertFailed)
  /\ exists evs s w',
       AddRecord_crc w slice crc = Ret (evs, s, w')
       /\ each_record (fun h p => size p <= 65535
                                  /\ header_length h = size p
                                  /\ size h + size p <= kBlockSize) evs.
Proof.
  intros Hr. pose proof (reachable_cursor_ok w Hr) as Hc.
  destruct (AddRecord_crc_returns w slice crc Hc) as (evs & s & w' & H).
  split.
  - intros fuel Hfail.
    unfold AddRecord_crc, add_record_with_crc, add_record_with_crc_fuel in *.
    pose proof (do_while_more_fuel _ _ _ _ fuel _ _ _ _ _ H) as H1.
    pose proof (do_while_more_fuel_outcome
                  (if recycle_log_files_ w then kRecyclableHeaderSize
                   else kHeaderSize)
                  slice crc fuel (passes slice) w 0 (size slice) true) as H2.
    rewrite Hfail in H2. rewrite Nat.add_comm in H1.
    rewrite H1 in H2. discriminate H2. discriminate.
  - exists evs, s, w'. split; [exact H|].
    eapply AddRecord_crc_each_record; [exact Hc | | exact H].
    intros bo ptr left begin Hb Hp Hl Hsz n.
    pose proof (frag_len_range (recycle_log_files_ w) bo left Hb Hl)
      as [Hn Hn']. fold n in Hn, Hn'.
    pose proof (header_size_of_range (recycle_log_files_ w)) as Hh.
    assert (Hroll : 0 <= roll (header_size_of (recycle_log_files_ w)) bo
                      <= kBlockSize - header_size_of (recycle_log_files_ w))
      by (apply roll_range; [unfold kBlockSize; lia | exact Hb]).
    assert (Hk : kBlockSize = 32768) by reflexivity.
    rewrite Slice_at_length by lia.
    rewrite header_length_of by lia.
    split; [lia|]. split; [reflexivity|].
    assert (Hsh : size (header_of (recycle_log_files_ w) (log_number_ w)
                          (fragment_type (recycle_log_files_ w) begin
                             (left =? n)) n crc)
                  = header_size_of (recycle_log_files_ w))
      by (destruct (recycle_log_files_ w); reflexivity).
    rewrite Hsh. lia.
Qed.

End Headers.



Lemma fragment_length_bound_witness :
  (forall fuel,
      add_record_with_crc_fuel fuel example_writer [x01; x02; x03] 9
        <> AssertFailed)
  /\ exists evs s w',
       AddRecord_crc example_writer [x01; x02; x03] 9 = Ret (evs, s, w')
       /\ each_record (fun h p => size p <= 65535
                                  /\ header_length h = size p
                                  /\ size h + size p <= kBlockSize) evs.
Proof.
  apply (fragment_length_bound example_writer [x01; x02; x03] 9).
  apply reachable_new.
Defined.

(** ** Single passes: the empty record, the block switch, the full block *)

Section Passes.

Context {S : Type} {sink : FileSink S} {crc32c : Crc32c}.

(** C8.  On an empty payload, from every reachable state, the loop is done
    after exactly one pass (one unit of fuel), and the call hands the sink
    exactly one physical record: type Full (of the writer's framing mode),
    empty payload, length field 0.  [AddRecord(slice)] is this call at the
    checksum it computes. *)
Theorem empty_record_single_full (w : Writer S) (crc : Z) :
  reachable w ->
  exists evs h ret w',
    add_record_with_crc_fuel 1 w [] crc = Ret (evs, status_of ret, w')
    /\ AddRecord_crc w [] crc = Ret (evs, status_of ret, w')
    /\ phys_records evs = [EvPhys h [] ret]
    /\ header_type h
       = type_code (if recycle_log_files_ w then kRecyclableFullType
                    else kFullType)
    /\ header_length h = 0.
Proof.
  intros Hr. pose proof (reachable_cursor_ok w Hr) as Hc.
  destruct (loop_body_spec w [] 0 0 true crc Hc (Z.le_refl 0))
    as (pads & ret & w2 & Hbody & Hpads & _ & _ & _).
  cbv zeta in Hbody.
  pose proof (frag_len_range (recycle_log_files_ w) (block_offset_ w) 0 Hc
                (Z.le_refl 0)) as [Hn _].
  assert (En : frag_len (recycle_log_files_ w) (block_offset_ w) 0 = 0) by lia.
  unfold frag_event in Hbody. rewrite En in Hbody.
  change (0 =? 0) with true in Hbody. cbn [Z.add Z.sub Z.opp] in Hbody.
  rewrite Slice_at_zero in Hbody.
  assert (H1 : add_record_with_crc_fuel 1 w [] crc
               = Ret (pads ++ [EvPhys
                        (header_of (recycle_log_files_ w) (log_number_ w)
                           (fragment_type (recycle_log_files_ w) true true)
                           0 crc) [] ret], status_of ret, w2)).
  { unfold add_record_with_crc_fuel. cbn [do_while size length Z.of_nat].
    fold (header_size_of (recycle_log_files_ w)).
    rewrite Hbody. cbn [bind].
    change (0 <? 0) with false. rewrite andb_false_r. reflexivity. }
  eexists _, _, ret, w2. split; [exact H1|].
  split.
  - unfold AddRecord_crc, add_record_with_crc, add_record_with_crc_fuel in *.
    change (passes []) with (1 + 1)%nat.
    apply do_while_more_fuel. exact H1.
  - split.
    + rewrite phys_records_app.
      destruct (fillers_payloads _ _ _ Hpads) as [_ ->]. reflexivity.
    + split.
      * rewrite header_type_of. destruct (recycle_log_files_ w); reflexivity.
      * apply header_length_of. lia.
Qed.

(** C5.  Whenever a pass starts with less room in the block than a header
    needs, the block switch writes as many zero bytes as were left over, in
    one filler write, issues no write at all when nothing was left over,
    and leaves the cursor at exactly 0.  The hypothesis on the cursor holds
    at every pass of a call from a reachable state. *)
Theorem block_switch_padding (w : Writer S) :
  let hs := header_size_of (recycle_log_files_ w) in
  let leftover := kBlockSize - block_offset_ w in
  cursor_ok w -> leftover < hs ->
  exists evs w1,
    switch_block w hs = Ret (evs, w1)
    /\ block_offset_ w1 = 0
    /\ filler_bytes evs = repeat x00 (Z.to_nat leftover)
    /\ size (filler_bytes evs) = leftover
    /\ (leftover = 0 -> evs = [] /\ dest_ w1 = dest_ w)
    /\ (0 < leftover -> exists ret, evs = [EvPad (filler_bytes evs) ret]).
Proof.
  intros hs leftover Hc Hlt.
  pose proof (header_size_of_range (recycle_log_files_ w)) as Hh. fold hs in Hh.
  rewrite switch_block_eq by assumption. cbv zeta. fold leftover.
  assert (Hl0 : 0 <= leftover) by (unfold leftover, cursor_ok in *; lia).
  replace (leftover <? hs) with true by (symmetry; apply Z.ltb_lt; exact Hlt).
  destruct (0 <? leftover) eqn:E.
  - apply Z.ltb_lt in E.
    destruct (append _ _) as [d r].
    eexists _, _. split; [reflexivity|].
    cbn [filler_bytes flat_map app block_offset_ set_block_offset].
    rewrite app_nil_r.
    split; [reflexivity|]. split; [reflexivity|].
    split; [unfold size; rewrite repeat_length; lia|].
    split; [lia|]. intros _. exists r. reflexivity.
  - apply Z.ltb_ge in E. assert (E0 : leftover = 0) by lia.
    eexists _, _. split; [reflexivity|].
    cbn [filler_bytes flat_map block_offset_ set_block_offset dest_].
    rewrite E0.
    split; [reflexivity|]. split; [reflexivity|]. split; [reflexivity|].
    split; [auto | lia].
Qed.

(** A pass that starts with exactly a header's room left in the block
    while bytes remain. *)
Lemma full_block_pass (w : Writer S) (base : Slice)
    (ptr left : Z) (begin : bool) (crc : Z) :
  let recycle := recycle_log_files_ w in
  let hs := header_size_of recycle in
  block_offset_ w = kBlockSize - hs -> 0 < left ->
  exists h ret w2,
    loop_body w hs base ptr left begin crc
      = Ret ([EvPhys h [] ret], status_of ret, w2, ptr, left)
    /\ header_length h = 0
    /\ size h = hs
    /\ header_type h
       = type_code (if begin
                    then if recycle then kRecyclableFirstType else kFirstType
                    else if recycle then kRecyclableMiddleType
                         else kMiddleType)
    /\ (ret = 0 ->
        block_offset_ w2 = kBlockSize
        /\ switch_block w2 hs = Ret ([], set_block_offset w2 0)).
Proof.
  intros recycle hs Hbo Hleft.
  pose proof (header_size_of_range recycle) as Hh. fold hs in Hh.
  assert (Hk : kBlockSize = 32768) by reflexivity.
  assert (Hc : cursor_ok w) by (unfold cursor_ok; lia).
  destruct (loop_body_spec w base ptr left begin crc Hc)
    as (pads & ret & w2 & Hbody & Hpads & Hid & Hbo2 & _); [lia|].
  cbv zeta in Hbody, Hpads, Hbo2. fold recycle in Hbody, Hpads, Hbo2.
  fold hs in Hbody, Hbo2.
  assert (Eroll : roll hs (block_offset_ w) = block_offset_ w).
  { unfold roll. rewrite Hbo.
    replace (kBlockSize - (kBlockSize - hs) <? hs) with false
      by (symmetry; apply Z.ltb_ge; lia).
    reflexivity. }
  assert (En : frag_len recycle (block_offset_ w) left = 0).
  { unfold frag_len. fold hs. rewrite Eroll, Hbo. lia. }
  assert (Epads : pads = []).
  { destruct Hpads as [[Hlt _] | [_ ->]]; [fold hs in Hlt; lia | reflexivity]. }
  unfold frag_event in Hbody. rewrite En, Epads in Hbody.
  replace (left =? 0) with false in Hbody by (symmetry; apply Z.eqb_neq; lia).
  rewrite Slice_at_zero, Z.add_0_r, Z.sub_0_r in Hbody. cbn [app] in Hbody.
  eexists _, ret, w2. split; [exact Hbody|].
  split; [apply header_length_of; lia|].
  split; [subst hs; destruct recycle; reflexivity|].
  split; [rewrite header_type_of; destruct begin, recycle; reflexivity|].
  intros Hret. rewrite Hret in Hbo2. cbn [Z.eqb] in Hbo2.
  rewrite Eroll, En, Hbo in Hbo2.
  assert (Hb2 : block_offset_ w2 = kBlockSize) by lia.
  split; [exact Hb2|].
  destruct Hid as (_ & Hrec2 & _ & _).
  rewrite switch_block_eq; [| unfold cursor_ok; lia | exact Hh].
  cbv zeta. rewrite Hb2.
  replace (kBlockSize - kBlockSize <? hs) with true
    by (symmetry; apply Z.ltb_lt; lia).
  replace (0 <? kBlockSize - kBlockSize) with false
    by (symmetry; apply Z.ltb_ge; lia).
  reflexivity.
Qed.

(** C10.  A pass that starts with exactly a header's room left in the
    block while bytes remain does not switch blocks: it emits one physical
    record with an empty payload and length field 0, of type First on the
    first pass and Middle on a later one, and when the sink accepts it the
    cursor is at the end of the block, so that the next block switch writes
    no filler and resets the cursor to 0.  Hence [AddRecord] on a non-empty
    record from such a cursor hands the sink, first of all, a zero-length
    fragment of type First. *)
Theorem full_block_zero_length_fragment (w : Writer S) (base : Slice)
    (ptr left : Z) (begin : bool) (crc : Z) :
  let recycle := recycle_log_files_ w in
  let hs := header_size_of recycle in
  block_offset_ w = kBlockSize - hs -> 0 < left ->
  (exists h ret w2,
      loop_body w hs base ptr left begin crc
        = Ret ([EvPhys h [] ret], status_of ret, w2, ptr, left)
      /\ header_length h = 0
      /\ size h = hs
      /\ header_type h
         = type_code (if begin
                      then if recycle then kRecyclableFirstType else kFirstType
                      else if recycle then kRecyclableMiddleType
                           else kMiddleType)
      /\ (ret = 0 ->
          block_offset_ w2 = kBlockSize
          /\ switch_block w2 hs = Ret ([], set_block_offset w2 0)))
  /\ (forall slice, slice <> [] ->
      exists h ret rest s w',
        AddRecord_crc w slice crc = Ret (EvPhys h [] ret :: rest, s, w')
        /\ header_length h = 0
        /\ header_type h
           = type_code (if recycle then kRecyclableFirstType else kFirstType)).
Proof.
  intros recycle hs Hbo Hleft.
  split; [apply full_block_pass; assumption|].
  intros slice Hne.
  assert (Hsz : 0 < size slice)
    by (destruct slice; [congruence | unfold size; cbn [length]; lia]).
  pose proof (header_size_of_range recycle) as Hh. fold hs in Hh.
  assert (Hc : cursor_ok w) by (unfold cursor_ok, kBlockSize in *; lia).
  destruct (AddRecord_crc_returns w slice crc Hc) as (evs & s & w' & H).
  destruct (full_block_pass w slice 0 (size slice) true crc Hbo Hsz)
    as (h & ret & w2 & Hbody & Hlen & _ & Hty & _).
  fold recycle in Hbody, Hty. fold hs in Hbody.
  assert (Hhead : exists rest, evs = EvPhys h [] ret :: rest).
  { pose proof H as H'.
    unfold AddRecord_crc, add_record_with_crc, add_record_with_crc_fuel in H'.
    fold (header_size_of (recycle_log_files_ w)) in H'. fold recycle in H'.
    fold hs in H'.
    replace (passes slice) with (Datatypes.S (Datatypes.S (2 * length slice)))
      in H' by (unfold passes; lia).
    remember (Datatypes.S (2 * length slice)) as fuel eqn:Efuel.
    cbn [do_while] in H'. rewrite Hbody in H'. cbn [bind] in H'.
    destruct (ok (status_of ret) && (0 <? size slice)).
    - destruct (do_while fuel w2 hs slice 0 (size slice) false crc)
        as [[[evs' s'] w'']| |]; cbn [bind] in H'; try discriminate.
      injection H' as <- _ _. eexists. reflexivity.
    - injection H' as <- _ _. eexists. reflexivity. }
  destruct Hhead as [rest ->].
  exists h, ret, rest, s, w'. split; [exact H|]. split; assumption.
Qed.

End Passes.

Lemma reachable_writer_after {S} {sink : FileSink S} {crc32c : Crc32c}
    (w : Writer S) (slice : Slice) :
  reachable w -> reachable (writer_after w (AddRecord w slice)).
Proof.
  intros (d & ln & r & ua & Hev).
  destruct (AddRecord w slice) as [[[evs s] w']| |] eqn:E; cbn.
  - exists d, ln, r, ua. eapply evolves_AddRecord; eassumption.
  - exists d, ln, r, ua. exact Hev.
  - exists d, ln, r, ua. exact Hev.
Qed.

Lemma empty_record_single_full_witness :
  exists evs h ret w',
    add_record_with_crc_fuel 1 example_writer [] 9
      = Ret (evs, status_of ret, w')
    /\ AddRecord_crc example_writer [] 9 = Ret (evs, status_of ret, w')
    /\ phys_records evs = [EvPhys h [] ret]
    /\ header_type h = type_code kFullType
    /\ header_length h = 0.
Proof.
  apply (empty_record_single_full example_writer 9).
  apply reachable_new.
Defined.

Lemma block_switch_padding_witness :
  reachable example_writer_3_left
  /\ kBlockSize - block_offset_ example_writer_3_left = 3
  /\ exists evs w1,
       switch_block example_writer_3_left kHeaderSize = Ret (evs, w1)
       /\ block_offset_ w1 = 0
       /\ filler_bytes evs = [x00; x00; x00]
       /\ size (filler_bytes evs) = 3
       /\ (3 = 0 -> evs = [] /\ dest_ w1 = dest_ example_writer_3_left)
       /\ (0 < 3 -> exists ret, evs = [EvPad (filler_bytes evs) ret]).
Proof.
  split; [apply reachable_writer_after, reachable_new|].
  split; [vm_compute; reflexivity|].
  apply (block_switch_padding example_writer_3_left).
  - unfold cursor_ok. vm_compute. split; discriminate.
  - vm_compute. reflexivity.
Defined.

Lemma full_block_zero_length_fragment_witness :
  reachable example_writer_header_left
  /\ (exists h ret w2,
         loop_body example_writer_header_left kHeaderSize [x01] 0 1 true 9
           = Ret ([EvPhys h [] ret], status_of ret, w2, 0, 1)
         /\ header_length h = 0
         /\ size h = kHeaderSize
         /\ header_type h = type_code kFirstType
         /\ (ret = 0 ->
             block_offset_ w2 = kBlockSize
             /\ switch_block w2 kHeaderSize = Ret ([], set_block_offset w2 0)))
  /\ (forall slice, slice <> [] ->
      exists h ret rest s w',
        AddRecord_crc example_writer_header_left slice 9
          = Ret (EvPhys h [] ret :: rest, s, w')
        /\ header_length h = 0
        /\ header_type h = type_code kFirstType).
Proof.
  split; [apply reachable_writer_after, reachable_new|].
  apply (full_block_zero_length_fragment example_writer_header_left
           [x01] 0 1 true 9).
  - vm_compute. reflexivity.
  - lia.
Defined.

(** ** A record of 40000 bytes in a fresh block *)

Section TwoFragments.

Context {S : Type} {sink : FileSink S} {crc32c : Crc32c}.

(** C6.  With blocks of 32768 bytes and the legacy 7-byte header, a record
    of 40000 bytes written at cursor 0 to a sink that accepts it makes
    exactly two sink calls, both physical records: the first 32761 bytes
    with type First, then the remaining 7239 bytes with type Last; the
    call succeeds and leaves the cursor at 7246. *)
Theorem two_fragment_example (w : Writer S) (slice : Slice) (crc : Z) :
  block_offset_ w = 0 -> recycle_log_files_ w = false ->
  size slice = 40000 -> accepting S ->
  kBlockSize = 32768 /\ kHeaderSize = 7
  /\ exists h1 h2 w',
       AddRecord_crc w slice crc
         = Ret ([EvPhys h1 (Slice_at slice 0 32761) 0;
                 EvPhys h2 (Slice_at slice 32761 7239) 0], OK, w')
       /\ size h1 = 7 /\ header_length h1 = 32761
       /\ size (Slice_at slice 0 32761) = 32761
       /\ header_type h1 = type_code kFirstType
       /\ size h2 = 7 /\ header_length h2 = 7239
       /\ size (Slice_at slice 32761 7239) = 7239
       /\ header_type h2 = type_code kLastType
       /\ block_offset_ w' = 7246.
Proof.
  intros Hbo Hrec Hsz Hacc.
  split; [reflexivity|]. split; [reflexivity|].
  assert (Hc : cursor_ok w) by (unfold cursor_ok, kBlockSize; lia).
  (* first pass *)
  destruct (loop_body_spec w slice 0 40000 true crc Hc)
    as (pads1 & ret1 & w1 & Hbody1 & Hpads1 & Hid1 & Hbo1 & Hsink1); [lia|].
  cbv zeta in Hbody1, Hpads1, Hbo1.
  rewrite Hrec, Hbo in Hbody1, Hpads1, Hbo1.
  assert (Eret1 : ret1 = 0)
    by (destruct Hsink1 as (d & hd & pl & ->); apply Hacc).
  assert (Epads1 : pads1 = []).
  { destruct Hpads1 as [[Hlt _] | [_ ->]]; [|reflexivity].
    exfalso. revert Hlt. vm_compute. intros [_ Hlt]. discriminate Hlt. }
  subst ret1 pads1. unfold frag_event in Hbody1.
  change (frag_len false 0 40000) with 32761 in Hbody1, Hbo1.
  change (roll (header_size_of false) 0 + header_size_of false + 32761)
    with 32768 in Hbo1.
  unfold status_of in Hbody1.
  change (0 =? 0) with true in Hbody1, Hbo1. cbv iota in Hbody1, Hbo1.
  change (0 + 32761) with 32761 in Hbody1.
  change (40000 - 32761) with 7239 in Hbody1.
  change (40000 =? 32761) with false in Hbody1. cbn [app] in Hbody1.
  destruct Hid1 as (Hlog1 & Hrec1 & _ & _). rewrite Hrec in Hrec1.
  (* second pass *)
  assert (Hc1 : cursor_ok w1) by (unfold cursor_ok, kBlockSize; lia).
  destruct (loop_body_spec w1 slice 32761 7239 false crc Hc1)
    as (pads2 & ret2 & w2 & Hbody2 & Hpads2 & Hid2 & Hbo2 & Hsink2); [lia|].
  cbv zeta in Hbody2, Hpads2, Hbo2.
  rewrite Hrec1, Hbo1 in Hbody2, Hpads2, Hbo2.
  assert (Eret2 : ret2 = 0)
    by (destruct Hsink2 as (d & hd & pl & ->); apply Hacc).
  assert (Epads2 : pads2 = []).
  { destruct Hpads2 as [[Hlt _] | [_ ->]]; [|reflexivity].
    exfalso. revert Hlt. vm_compute. intros [Hlt _]. discriminate Hlt. }
  subst ret2 pads2. unfold frag_event in Hbody2.
  change (frag_len false 32768 7239) with 7239 in Hbody2, Hbo2.
  change (roll (header_size_of false) 32768 + header_size_of false + 7239)
    with 7246 in Hbo2.
  unfold status_of in Hbody2.
  change (0 =? 0) with true in Hbody2, Hbo2. cbv iota in Hbody2, Hbo2.
  change (7239 - 7239) with 0 in Hbody2.
  change (7239 =? 7239) with true in Hbody2. cbn [app] in Hbody2.
  (* the loop *)
  eexists _, _, w2. split.
  - unfold AddRecord_crc, add_record_with_crc.
    replace (passes slice) with (2 + 2 * length slice)%nat
      by (unfold passes; lia).
    unfold add_record_with_crc_fuel. apply do_while_more_fuel.
    rewrite Hrec, Hsz. cbn [do_while].
    change kHeaderSize with (header_size_of false).
    rewrite Hbody1. cbn [bind ok andb]. change (0 <? 7239) with true.
    cbv iota. rewrite Hbody2. cbn [bind ok andb]. change (0 <? 0) with false.
    cbv iota. cbn [bind app]. reflexivity.
  - split; [reflexivity|].
    split; [apply header_length_of; lia|].
    split; [apply Slice_at_length; lia|].
    split; [apply header_type_of|].
    split; [reflexivity|].
    split; [apply header_length_of; lia|].
    split; [apply Slice_at_length; lia|].
    split; [apply header_type_of|].
    exact Hbo2.
Qed.

End TwoFragments.

Lemma two_fragment_example_witness :
  kBlockSize = 32768 /\ kHeaderSize = 7
  /\ exists h1 h2 w',
       AddRecord_crc example_memory_writer (repeat x01 (Z.to_nat 40000)) 9
         = Ret ([EvPhys h1 (Slice_at (repeat x01 (Z.to_nat 40000)) 0 32761) 0;
                 EvPhys h2
                   (Slice_at (repeat x01 (Z.to_nat 40000)) 32761 7239) 0],
                OK, w')
       /\ size h1 = 7 /\ header_length h1 = 32761
       /\ size (Slice_at (repeat x01 (Z.to_nat 40000)) 0 32761) = 32761
       /\ header_type h1 = type_code kFirstType
       /\ size h2 = 7 /\ header_length h2 = 7239
       /\ size (Slice_at (repeat x01 (Z.to_nat 40000)) 32761 7239) = 7239
       /\ header_type h2 = type_code kLastType
       /\ block_offset_ w' = 7246.
Proof.
  apply (two_fragment_example example_memory_writer
           (repeat x01 (Z.to_nat 40000)) 9).
  - reflexivity.
  - reflexivity.
  - vm_compute. reflexivity.
  - intros d header payload. reflexivity.
Defined.

(** ** A sink that fails in the middle of a record *)

Lemma phys_records_cons (h p : Slice) (r : Z) (evs : list Event) :
  phys_records (EvPhys h p r :: evs) = EvPhys h p r :: phys_records evs.
Proof. reflexivity. Qed.

Lemma bytes_written_cons (e : Event) (evs : list Event) :
  bytes_written (e :: evs)
  = match e with
    | EvPad filler _ => size filler
    | EvPhys h p r => if r =? 0 then size h + size p else 0
    end + bytes_written evs.
Proof. reflexivity. Qed.

Lemma bytes_written_app (a b : list Event) :
  bytes_written (a ++ b) = bytes_written a + bytes_written b.
Proof.
  induction a as [|e a IH]; cbn [app].
  - reflexivity.
  - rewrite !bytes_written_cons, IH. lia.
Qed.

Lemma cursor_after_cons (hs bo : Z) (h p : Slice) (r : Z) (recs : list Event) :
  cursor_after hs bo (EvPhys h p r :: recs)
  = cursor_after hs (roll hs bo + size h + size p) recs.
Proof. reflexivity. Qed.

Section RunShape.

Variables (recycle : bool) (log_number crc : Z) (base : Slice).

Local Abbreviation hs := (header_size_of recycle).

Lemma header_of_size (t : RecordType) (n : Z) :
  size (header_of recycle log_number t n crc) = hs.
Proof. destruct recycle; reflexivity. Qed.

(** Every run is a series of accepted calls followed by one last physical
    record, whose result decides the status; the cursor is that of the
    accepted records, plus the last one if it was accepted too. *)
Lemma Run_shape :
  forall bo ptr left begin evs s bo',
    Run recycle log_number crc base bo ptr left begin evs s bo' ->
    0 <= bo <= kBlockSize -> 0 <= ptr -> 0 <= left ->
    ptr + left <= size base ->
    exists pre h p ret,
      evs = pre ++ [EvPhys h p ret]
      /\ Forall accepted (phys_records pre)
      /\ s = status_of ret
      /\ let c := cursor_after hs bo (phys_records pre) in
         bo' = if ret =? 0 then roll hs c + size h + size p else roll hs c.
Proof.
  intros bo ptr left begin evs s bo' HR.
  induction HR as [bo ptr left begin pads ret Hf Hret
                  | bo ptr left begin pads Hf Hlast
                  | bo ptr left begin pads evs s bo' Hf Hmore HR IH];
    intros Hb Hp Hl Hsz;
    pose proof (frag_len_range recycle bo left Hb Hl) as [Hn Hn'];
    destruct (fillers_payloads _ _ _ Hf) as [_ Hph].
  - eexists pads, _, _, ret. split; [reflexivity|].
    rewrite Hph. split; [constructor|].
    unfold status_of. apply Z.eqb_neq in Hret. rewrite Hret.
    split; reflexivity.
  - eexists pads, _, _, 0. split; [reflexivity|].
    rewrite Hph. split; [constructor|]. split; [reflexivity|].
    cbn [cursor_after fold_left Z.eqb].
    rewrite header_of_size, Slice_at_length by lia. reflexivity.
  - destruct IH as (pre & h & p & ret & Hevs & Hacc & Hs & Hbo');
      [apply Run_next_cursor; assumption | lia | lia | lia |].
    exists (pads ++ frag_event recycle log_number crc base bo ptr left begin 0
              :: pre), h, p, ret.
    split; [rewrite Hevs, <- app_assoc; reflexivity|].
    rewrite phys_records_app, Hph. cbn [app].
    unfold frag_event. rewrite phys_records_cons.
    split; [constructor; [reflexivity | exact Hacc]|].
    split; [exact Hs|].
    rewrite cursor_after_cons.
    rewrite header_of_size, Slice_at_length by lia.
    exact Hbo'.
Qed.

(** The cursor follows the bytes written, block after block. *)
Lemma Run_bytes :
  forall bo ptr left begin evs s bo',
    Run recycle log_number crc base bo ptr left begin evs s bo' ->
    0 <= bo <= kBlockSize -> 0 <= ptr -> 0 <= left ->
    ptr + left <= size base ->
    exists blocks, bo + bytes_written evs = bo' + blocks * kBlockSize.
Proof.
  pose proof (header_size_of_range recycle) as Hh.
  assert (Hpads : forall bo pads,
             fillers recycle bo pads -> 0 <= bo <= kBlockSize ->
             exists q, bo + bytes_written pads = roll hs bo + q * kBlockSize).
  { intros bo pads [[Hlt [r ->]] | [Hn ->]] Hb; unfold roll.
    - replace (kBlockSize - bo <? hs) with true
        by (symmetry; apply Z.ltb_lt; lia).
      exists 1. rewrite bytes_written_cons. change (bytes_written []) with 0.
      unfold size. rewrite repeat_length, Z2Nat.id by lia. lia.
    - change (bytes_written []) with 0.
      destruct (kBlockSize - bo <? hs) eqn:E.
      + apply Z.ltb_lt in E. exists 1. lia.
      + exists 0. lia. }
  intros bo ptr left begin evs s bo' HR.
  induction HR as [bo ptr left begin pads ret Hf Hret
                  | bo ptr left begin pads Hf Hlast
                  | bo ptr left begin pads evs s bo' Hf Hmore HR IH];
    intros Hb Hp Hl Hsz;
    pose proof (frag_len_range recycle bo left Hb Hl) as [Hn Hn'];
    destruct (Hpads _ _ Hf Hb) as [q Hq];
    rewrite bytes_written_app; unfold frag_event;
    rewrite bytes_written_cons; change (bytes_written []) with 0.
  - apply Z.eqb_neq in Hret. rewrite Hret. exists q. lia.
  - change (0 =? 0) with true. cbv iota.
    rewrite header_of_size, Slice_at_length by lia. exists q. lia.
  - change (0 =? 0) with true. cbv iota.
    rewrite header_of_size, Slice_at_length by lia.
    destruct IH as [q' Hq'];
      [apply Run_next_cursor; assumption | lia | lia | lia |].
    exists (q + q'). lia.
Qed.

End RunShape.

Section SinkFailure.

Context {S : Type} {sink : FileSink S} {crc32c : Crc32c}.

(** A rejected [EmitPhysicalRecord] leaves the cursor where it was. *)
Lemma EmitPhysicalRecord_rejected (w : Writer S) (t : RecordType)
    (base : Slice) (ptr n crc : Z) evs w' :
  EmitPhysicalRecord w t base ptr n crc = Ret (evs, IOError, w') ->
  block_offset_ w' = block_offset_ w.
Proof.
  unfold EmitPhysicalRecord.
  destruct (n <=? 65535); cbn [assertion bind]; [|discriminate].
  destruct (type_code t <? type_code kRecyclableFullType).
  - destruct (to_size_t _ <=? kBlockSize); cbn [assertion bind];
      [|discriminate].
    destruct (append2 _ _ _) as [d r]. destruct (r =? 0); [discriminate|].
    intros H. apply (f_equal (writer_after w)) in H.
    cbv beta iota delta [writer_after] in H. rewrite <- H. reflexivity.
  - destruct (to_size_t _ <=? kBlockSize); cbn [assertion bind];
      [|discriminate].
    destruct (append2 _ _ _) as [d r]. destruct (r =? 0); [discriminate|].
    intros H. apply (f_equal (writer_after w)) in H.
    cbv beta iota delta [writer_after] in H. rewrite <- H. reflexivity.
Qed.

(** C4 (amended).  From every reachable state: if the sink rejects the
    physical record of index [k] (counting from 0, so the [k+1]-th) of an
    [AddRecord] call, the call returns the I/O-failure status, the rejected
    record is the last thing the sink was asked (no further fragment, no
    further filler), the [k] records before it were all accepted, and the
    cursor is that of exactly those [k] records, at the block the rejected
    fragment was meant for: it is the offset in its block of the position
    reached by the fillers and the accepted records, the rejected fragment
    adds nothing and nothing is taken back.  A rejected
    [EmitPhysicalRecord] never moves the cursor; the block switch made
    for the rejected fragment stays made. *)
Theorem sink_failure_preserves_progress (w : Writer S) (slice : Slice)
    (crc : Z) evs s w' (k : nat) (e : Event) :
  reachable w ->
  AddRecord_crc w slice crc = Ret (evs, s, w') ->
  nth_error (phys_records evs) k = Some e ->
  result_of e <> 0 ->
  let hs := header_size_of (recycle_log_files_ w) in
  s = IOError
  /\ (exists pre, evs = pre ++ [e])
  /\ length (phys_records evs) = Datatypes.S k
  /\ Forall accepted (firstn k (phys_records evs))
  /\ block_offset_ w'
     = roll hs (cursor_after hs (block_offset_ w)
                  (firstn k (phys_records evs)))
  /\ block_offset_ w'
     = (block_offset_ w + bytes_written evs) mod kBlockSize
  /\ (forall w1 t ptr n evs1 w2,
         EmitPhysicalRecord w1 t slice ptr n crc = Ret (evs1, IOError, w2) ->
         block_offset_ w2 = block_offset_ w1).
Proof.
  intros Hr H Hnth Hrej hs.
  pose proof (reachable_cursor_ok w Hr) as Hc.
  apply AddRecord_crc_Run in H; [|exact Hc].
  destruct H as (HR & _ & Hc').
  pose proof (Run_bytes _ _ _ _ _ _ _ _ _ _ _ HR Hc (Z.le_refl 0)
                (Nat2Z.is_nonneg _) (Z.le_refl _)) as [blocks Hbytes].
  apply Run_shape in HR; [| exact Hc | lia | unfold size; lia | lia].
  destruct HR as (pre & h & p & ret & Hevs & Hacc & Hs & Hbo').
  cbv zeta in Hbo'. fold hs in Hbo'.
  assert (Hphys : phys_records evs = phys_records pre ++ [EvPhys h p ret])
    by (rewrite Hevs, phys_records_app; reflexivity).
  rewrite Hphys in Hnth |- *.
  assert (Hk : k = length (phys_records pre) /\ e = EvPhys h p ret).
  { destruct (Nat.lt_ge_cases k (length (phys_records pre))) as [Hlt | Hge].
    - rewrite nth_error_app1 in Hnth by exact Hlt.
      apply nth_error_In in Hnth.
      rewrite Forall_forall in Hacc. apply Hacc in Hnth.
      contradiction.
    - rewrite nth_error_app2 in Hnth by exact Hge.
      destruct (k - length (phys_records pre))%nat as [|m] eqn:Ek.
      + cbn in Hnth. injection Hnth as <-. split; [lia | reflexivity].
      + cbn in Hnth. destruct m; discriminate. }
  destruct Hk as [Hk ->]. cbn [result_of] in Hrej.
  assert (Efirst : firstn k (phys_records pre ++ [EvPhys h p ret])
                   = phys_records pre).
  { rewrite firstn_app, Hk, Nat.sub_diag, firstn_all. cbn [firstn].
    apply app_nil_r. }
  rewrite Efirst.
  apply Z.eqb_neq in Hrej.
  unfold status_of in Hs. rewrite Hrej in Hs, Hbo'.
  split; [exact Hs|].
  split; [exists pre; exact Hevs|].
  split; [rewrite length_app; cbn [length]; lia|].
  split; [exact Hacc|].
  split; [exact Hbo'|].
  split.
  - rewrite Hbytes, Z.mod_add by (unfold kBlockSize; lia).
    symmetry. apply Z.mod_small.
    pose proof (header_size_of_range (recycle_log_files_ w)) as Hh.
    fold hs in Hh. unfold cursor_ok in Hc'.
    revert Hbo'. unfold roll.
    destruct (kBlockSize - _ <? hs) eqn:E; intros Hbo'.
    + rewrite Hbo'. unfold kBlockSize. lia.
    + apply Z.ltb_ge in E. lia.
  - intros w1 t ptr n evs1 w2. apply EmitPhysicalRecord_rejected.
Qed.

End SinkFailure.

Lemma sink_failure_preserves_progress_witness :
  exists h1 h2 w',
    let slice := [x01; x02; x03; x04; x05; x06; x07; x08; x09; x0a] in
    let evs := [EvPhys h1 (firstn 7 slice) 0; EvPhys h2 (skipn 7 slice) 5] in
    block_offset_ example_failing_writer = 32754
    /\ AddRecord_crc example_failing_writer slice 9 = Ret (evs, IOError, w')
    /\ (exists pre, evs = pre ++ [EvPhys h2 (skipn 7 slice) 5])
    /\ length (phys_records evs) = 2%nat
    /\ Forall accepted (firstn 1 (phys_records evs))
    /\ block_offset_ w'
       = roll kHeaderSize
           (cursor_after kHeaderSize 32754 (firstn 1 (phys_records evs)))
    /\ block_offset_ w' = (32754 + bytes_written evs) mod kBlockSize
    /\ block_offset_ w' = 0.
Proof.
  eexists _, _, _. cbv zeta.
  assert (H : AddRecord_crc example_failing_writer
                [x01; x02; x03; x04; x05; x06; x07; x08; x09; x0a] 9
              = Ret ([EvPhys _ [x01; x02; x03; x04; x05; x06; x07] 0;
                      EvPhys _ [x08; x09; x0a] 5], IOError, _))
    by (vm_compute; reflexivity).
  assert (Hreach : reachable example_failing_writer)
    by (apply reachable_writer_after, reachable_new).
  destruct (sink_failure_preserves_progress _ _ _ _ _ _ 1%nat _ Hreach H
              eq_refl ltac:(discriminate))
    as (_ & Hlast & Hlen & Hacc & Hbo & Hpos & _).
  split; [vm_compute; reflexivity|].
  split; [exact H|].
  split; [exact Hlast|].
  split; [exact Hlen|].
  split; [exact Hacc|].
  split; [exact Hbo|].
  split; [exact Hpos|].
  vm_compute. reflexivity.
Defined.

(** C4, as stated, fails: with 3 bytes left in the block, a record of
    40000 bytes whose first physical record the sink rejects leaves the
    cursor at 0, not at 32765 where it was: no fragment was accepted, but
    the block switch before the rejected fragment had written its filler
    and reset the cursor. *)
Lemma sink_failure_cursor_counterexample :
  reachable example_writer_rejected_first
  /\ block_offset_ example_writer_rejected_first = 32765
  /\ block_offset_
       (writer_after example_writer_rejected_first
          (AddRecord_crc example_writer_rejected_first
             (repeat x01 (Z.to_nat 40000)) 9)) = 0
  /\ ~ cursor_of_accepted_fragments_claim example_writer_rejected_first
        (repeat x01 (Z.to_nat 40000)) 9.
Proof.
  assert (Hr : reachable example_writer_rejected_first)
    by (apply reachable_writer_after, reachable_new).
  assert (Hbo0 : block_offset_ example_writer_rejected_first = 32765)
    by (vm_compute; reflexivity).
  assert (Hbo1 : block_offset_
                   (writer_after example_writer_rejected_first
                      (AddRecord_crc example_writer_rejected_first
                         (repeat x01 (Z.to_nat 40000)) 9)) = 0)
    by (vm_compute; reflexivity).
  assert (Hres : option_map result_of
                   (nth_error
                      (phys_records
                         (events_of
                            (AddRecord_crc example_writer_rejected_first
                               (repeat x01 (Z.to_nat 40000)) 9))) 0)
                 = Some 5)
    by (vm_compute; reflexivity).
  split; [exact Hr|]. split; [exact Hbo0|]. split; [exact Hbo1|].
  intros Hclaim.
  destruct (AddRecord_crc_returns example_writer_rejected_first
              (repeat x01 (Z.to_nat 40000)) 9 (reachable_cursor_ok _ Hr))
    as (evs & s & w' & H).
  rewrite H in Hbo1, Hres.
  cbv beta iota delta [writer_after events_of] in Hbo1, Hres.
  destruct (nth_error (phys_records evs) 0) as [e|] eqn:En;
    [|discriminate Hres].
  cbv beta iota delta [option_map] in Hres.
  assert (Hrej : result_of e <> 0)
    by (intros E0; rewrite E0 in Hres; discriminate Hres).
  destruct (Hclaim evs s w' 0%nat e H En Hrej) as (_ & _ & Hbo).
  cbv beta iota delta [firstn cursor_after fold_left] in Hbo.
  rewrite Hbo1, Hbo0 in Hbo. discriminate Hbo.
Qed.

(** ** The per-type checksum table *)

Section TypeCrc.

Context {S : Type} {sink : FileSink S} {crc32c : Crc32c}.

Lemma Writer_new_type_crc (dest : S) (ln : Z) (r ua : bool) (i : Z) :
  0 <= i <= kMaxRecordType ->
  nth (Z.to_nat i) (type_crc_ (Writer_new dest ln r ua)) 0
  = crc32c_Value [char_of i].
Proof.
  intros Hi. change kMaxRecordType with 8 in Hi.
  cbn [Writer_new type_crc_].
  assert (Hcases : i = 0 \/ i = 1 \/ i = 2 \/ i = 3 \/ i = 4 \/ i = 5
                   \/ i = 6 \/ i = 7 \/ i = 8) by lia.
  repeat (destruct Hcases as [-> | Hcases]; [reflexivity|]).
  subst i. reflexivity.
Qed.

Lemma switch_block_set_type_crc (w : Writer S) (tab : list Z) (hs : Z) :
  switch_block (set_type_crc w tab) hs
  = match switch_block w hs with
    | Ret (evs, w1) => Ret (evs, set_type_crc w1 tab)
    | AssertFailed => AssertFailed
    | OutOfFuel => OutOfFuel
    end.
Proof.
  unfold switch_block. cbn [set_type_crc block_offset_ dest_].
  destruct (0 <=? _); cbn [assertion bind]; [|reflexivity].
  destruct (_ <? hs).
  - destruct (0 <? _).
    + destruct (hs <=? 11); cbn [assertion bind]; [|reflexivity].
      destruct (append _ _) as [d r].
      cbn [bind set_block_offset set_dest block_offset_].
      destruct (hs <=? _); reflexivity.
    + cbn [bind set_block_offset block_offset_].
      destruct (hs <=? _); reflexivity.
  - cbn [bind block_offset_ set_type_crc].
    destruct (hs <=? _); reflexivity.
Qed.

Lemma EmitPhysicalRecord_set_type_crc (w : Writer S) (tab : list Z)
    (t : RecordType) (base : Slice) (ptr n crc : Z) :
  EmitPhysicalRecord (set_type_crc w tab) t base ptr n crc
  = map_writer (fun w' => set_type_crc w' tab)
      (EmitPhysicalRecord w t base ptr n crc).
Proof.
  unfold EmitPhysicalRecord.
  cbn [set_type_crc block_offset_ dest_ log_number_].
  destruct (n <=? 65535); cbn [assertion bind]; [|reflexivity].
  destruct (type_code t <? type_code kRecyclableFullType).
  - destruct (to_size_t _ <=? kBlockSize); cbn [assertion bind];
      [|reflexivity].
    destruct (append2 _ _ _) as [d r]. destruct (r =? 0); reflexivity.
  - destruct (to_size_t _ <=? kBlockSize); cbn [assertion bind];
      [|reflexivity].
    destruct (append2 _ _ _) as [d r]. destruct (r =? 0); reflexivity.
Qed.

Lemma do_while_set_type_crc (tab : list Z) (hs : Z) (base : Slice) (crc : Z) :
  forall (fuel : nat) (w : Writer S) (ptr left : Z) (begin : bool),
    do_while fuel (set_type_crc w tab) hs base ptr left begin crc
    = map_writer (fun w' => set_type_crc w' tab)
        (do_while fuel w hs base ptr left begin crc).
Proof.
  induction fuel as [|fuel IH]; intros w ptr left begin; [reflexivity|].
  cbn [do_while]. unfold loop_body.
  rewrite switch_block_set_type_crc.
  destruct (switch_block w hs) as [[evs1 w1]| |]; cbn [bind]; try reflexivity.
  cbn [set_type_crc block_offset_ recycle_log_files_].
  rewrite EmitPhysicalRecord_set_type_crc.
  destruct (EmitPhysicalRecord w1 _ base ptr _ crc) as [[[evs2 s] w2]| |];
    cbn [bind map_writer]; try reflexivity.
  destruct (ok s && _); [|reflexivity].
  rewrite IH.
  destruct (do_while fuel w2 hs base _ _ false crc) as [[[evs3 s3] w3]| |];
    reflexivity.
Qed.

Lemma EmitPhysicalRecord_checksum (w : Writer S) (t : RecordType)
    (base : Slice) (ptr n crc : Z) evs s w' :
  EmitPhysicalRecord w t base ptr n crc = Ret (evs, s, w') ->
  each_record (fun h _ => header_checksum h = to_uint32 crc
                          /\ firstn 4 h = EncodeFixed32 crc) evs.
Proof.
  unfold EmitPhysicalRecord.
  destruct (n <=? 65535); cbn [assertion bind]; [|discriminate].
  assert (Hhdr : forall tail,
             header_checksum (EncodeFixed32 crc ++ tail) = to_uint32 crc)
    by (intros tail; apply DecodeFixed32_EncodeFixed32).
  destruct (type_code t <? type_code kRecyclableFullType).
  - destruct (to_size_t _ <=? kBlockSize); cbn [assertion bind];
      [|discriminate].
    change (firstn (Z.to_nat kHeaderSize) ?l) with l.
    destruct (append2 _ _ _) as [d r].
    destruct (r =? 0); intros H; apply (f_equal events_of) in H;
      cbv beta iota delta [events_of] in H; rewrite <- H;
      (constructor; [split; [apply Hhdr | reflexivity] | constructor]).
  - destruct (to_size_t _ <=? kBlockSize); cbn [assertion bind];
      [|discriminate].
    change (firstn (Z.to_nat kRecyclableHeaderSize) ?l) with l.
    destruct (append2 _ _ _) as [d r].
    destruct (r =? 0); intros H; apply (f_equal events_of) in H;
      cbv beta iota delta [events_of] in H; rewrite <- H;
      (constructor; [split; [apply Hhdr | reflexivity] | constructor]).
Qed.

(** C3 (amended).  The constructor fills the table with the checksum of
    each single type byte [0 .. kMaxRecordType], but emission never reads
    it: [add_record_with_crc] does the same with any other table, and the
    checksum field [EmitPhysicalRecord] writes is its [crc] argument, the
    same four bytes whatever the type and the payload of the fragment. *)
Theorem type_crc_table_not_used (w : Writer S) (tab : list Z)
    (slice : Slice) (crc : Z) :
  (forall (dest : S) ln r ua i,
      0 <= i <= kMaxRecordType ->
      nth (Z.to_nat i) (type_crc_ (Writer_new dest ln r ua)) 0
      = crc32c_Value [char_of i])
  /\ (forall fuel,
         add_record_with_crc_fuel fuel (set_type_crc w tab) slice crc
         = map_writer (fun w' => set_type_crc w' tab)
             (add_record_with_crc_fuel fuel w slice crc))
  /\ (forall t ptr n evs s w',
         EmitPhysicalRecord w t slice ptr n crc = Ret (evs, s, w') ->
         each_record (fun h _ => header_checksum h = to_uint32 crc
                                 /\ firstn 4 h = EncodeFixed32 crc) evs).
Proof.
  split; [intros dest ln r ua i; apply Writer_new_type_crc|].
  split.
  - intros fuel. unfold add_record_with_crc_fuel.
    cbn [set_type_crc recycle_log_files_]. apply do_while_set_type_crc.
  - intros t ptr n evs s w'. apply EmitPhysicalRecord_checksum.
Qed.

End TypeCrc.

(** C3, as stated, fails: on a fresh legacy writer, for the one-byte record
    [x01], no checksum primitive makes the header checksum the seeded
    checksum of the fragment both when the caller passes 0 and when it
    passes 1, since the header carries the caller's value and the seeded
    checksum does not depend on it. *)
Lemma seeded_checksum_counterexample :
  ~ exists K : Crc32c,
      seeded_checksum_claim K [x01] 0 /\ seeded_checksum_claim K [x01] 1.
Proof.
  intros [K [H0 H1]]. unfold seeded_checksum_claim in H0, H1.
  cbv zeta in H0, H1.
  assert (E : forall crc,
             @AddRecord_crc ScriptSink script_sink
               (@Writer_new ScriptSink K [] 7 false false) [x01] crc
             = Ret ([EvPhys (header_of false (to_uint64 7) kFullType 1 crc)
                       [x01] 0], OK,
                    set_block_offset
                      (@Writer_new ScriptSink K [] 7 false false) 8))
    by (intros crc; vm_compute; reflexivity).
  specialize (H0 _ _ _ (E 0)). specialize (H1 _ _ _ (E 1)).
  apply Forall_inv in H0. apply Forall_inv in H1.
  unfold seeded_checksum in H0, H1.
  rewrite header_checksum_of, header_type_of in H0, H1.
  rewrite <- H0 in H1. discriminate H1.
Qed.

(** * Further properties of the fragmentation loop *)

(** ** A pass that leaves bytes unwritten fills its block *)

Section LaterPasses.

Variables (recycle : bool) (log_number crc : Z) (base : Slice).

Local Abbreviation hs := (header_size_of recycle).

Lemma pass_fills_block (bo left : Z) :
  0 <= bo <= kBlockSize -> 0 <= left ->
  0 < left - frag_len recycle bo left ->
  roll hs bo + hs + frag_len recycle bo left = kBlockSize.
Proof.
  intros Hb Hl Hmore. unfold frag_len in *. lia.
Qed.

Lemma last_pass_takes_all (bo left : Z) :
  0 <= bo <= kBlockSize -> 0 <= left ->
  left - frag_len recycle bo left <= 0 ->
  frag_len recycle bo left = left.
Proof.
  intros Hb Hl Hlast.
  pose proof (frag_len_range recycle bo left Hb Hl). lia.
Qed.

Lemma fillers_at_block_end (pads : list Event) :
  fillers recycle kBlockSize pads -> pads = [].
Proof.
  intros [[Hlt _] | [_ ->]]; [lia | reflexivity].
Qed.

Lemma roll_at_block_end : roll hs kBlockSize = 0.
Proof.
  pose proof (header_size_of_range recycle) as Hh. unfold roll.
  replace (kBlockSize - kBlockSize <? hs) with true
    by (symmetry; apply Z.ltb_lt; lia).
  reflexivity.
Qed.

Lemma framed_cons (x t : Z) (ts : list Z) :
  framed recycle (x :: t :: ts)
  = (x =? code_first recycle) && framed_rest recycle (t :: ts).
Proof. reflexivity. Qed.

Lemma framed_rest_cons (x t : Z) (ts : list Z) :
  framed_rest recycle (x :: t :: ts)
  = (x =? code_middle recycle) && framed_rest recycle (t :: ts).
Proof. reflexivity. Qed.

Lemma types_of_cons (h p : Slice) (r : Z) (evs : list Event) :
  types_of (EvPhys h p r :: evs) = header_type h :: types_of evs.
Proof. reflexivity. Qed.

Lemma accepted_payloads_cons (h p : Slice) (r : Z) (evs : list Event) :
  accepted_payloads (EvPhys h p r :: evs)
  = (if r =? 0 then p else []) ++ accepted_payloads evs.
Proof. reflexivity. Qed.

Lemma types_of_app (a b : list Event) :
  types_of (a ++ b) = types_of a ++ types_of b.
Proof. unfold types_of. apply flat_map_app. Qed.

Lemma accepted_payloads_app (a b : list Event) :
  accepted_payloads (a ++ b) = accepted_payloads a ++ accepted_payloads b.
Proof. unfold accepted_payloads. apply flat_map_app. Qed.

Lemma fillers_no_records (bo : Z) (pads : list Event) :
  fillers recycle bo pads -> types_of pads = [] /\ accepted_payloads pads = [].
Proof. intros [[_ [r ->]] | [_ ->]]; split; reflexivity. Qed.

(** The filler write, if any, comes first; what follows are physical
    records only. *)
Lemma Run_fillers_first :
  forall bo ptr left begin evs s bo',
    Run recycle log_number crc base bo ptr left begin evs s bo' ->
    0 <= bo <= kBlockSize -> 0 <= left ->
    exists pads recs,
      evs = pads ++ recs /\ fillers recycle bo pads
      /\ Forall (fun e => is_phys e = true) recs /\ recs <> [].
Proof.
  intros bo ptr left begin evs s bo' HR.
  induction HR as [bo ptr left begin pads ret Hf Hret
                  | bo ptr left begin pads Hf Hlast
                  | bo ptr left begin pads evs s bo' Hf Hmore HR IH];
    intros Hb Hl.
  - exists pads, [frag_event recycle log_number crc base bo ptr left begin ret].
    repeat split; [exact Hf | repeat constructor | discriminate].
  - exists pads, [frag_event recycle log_number crc base bo ptr left begin 0].
    repeat split; [exact Hf | repeat constructor | discriminate].
  - rewrite (pass_fills_block bo left Hb Hl Hmore) in IH.
    destruct IH as (pads' & recs & -> & Hf' & Hrecs & _);
      [unfold kBlockSize; lia | lia |].
    rewrite (fillers_at_block_end _ Hf'). cbn [app].
    exists pads,
      (frag_event recycle log_number crc base bo ptr left begin 0 :: recs).
    repeat split; [exact Hf | constructor; [reflexivity | exact Hrecs]
                  | discriminate].
Qed.

(** A property of every fragment a pass can emit, where a pass that is not
    the first starts at the end of a block with bytes to write. *)
Lemma Run_each_record_later (P : Slice -> Slice -> Prop) :
  (forall bo ptr left begin,
      0 <= bo <= kBlockSize -> 0 <= ptr -> 0 <= left ->
      ptr + left <= size base ->
      (begin = false -> bo = kBlockSize /\ 0 < left) ->
      let n := frag_len recycle bo left in
      P (header_of recycle log_number
           (fragment_type recycle begin (left =? n)) n crc)
        (Slice_at base ptr n)) ->
  forall bo ptr left begin evs s bo',
    Run recycle log_number crc base bo ptr left begin evs s bo' ->
    0 <= bo <= kBlockSize -> 0 <= ptr -> 0 <= left ->
    ptr + left <= size base ->
    (begin = false -> bo = kBlockSize /\ 0 < left) ->
    each_record P evs.
Proof.
  intros HP bo ptr left begin evs s bo' HR.
  assert (Hpads : forall b pads, fillers recycle b pads ->
                                 each_record P pads).
  { intros b pads [[_ [r ->]] | [_ ->]]; repeat constructor. }
  induction HR as [bo ptr left begin pads ret Hf Hret
                  | bo ptr left begin pads Hf Hlast
                  | bo ptr left begin pads evs s bo' Hf Hmore HR IH];
    intros Hb Hp Hl Hsz Hlater; unfold each_record in *.
  - apply Forall_app. split; [eapply Hpads; eassumption|].
    constructor; [|constructor]. apply HP; assumption.
  - apply Forall_app. split; [eapply Hpads; eassumption|].
    constructor; [|constructor]. apply HP; assumption.
  - pose proof (frag_len_range recycle bo left Hb Hl) as [Hn Hn'].
    apply Forall_app. split; [eapply Hpads; eassumption|].
    constructor; [apply HP; assumption|].
    apply IH; try lia.
    + apply Run_next_cursor; assumption.
    + intros _. split; [apply pass_fills_block; assumption | lia].
Qed.

(** The type codes of a run that ends well. *)
Lemma Run_framed :
  forall bo ptr left begin evs s bo',
    Run recycle log_number crc base bo ptr left begin evs s bo' ->
    s = OK -> 0 <= bo <= kBlockSize -> 0 <= left ->
    (if begin then framed recycle (types_of evs)
     else framed_rest recycle (types_of evs)) = true.
Proof.
  intros bo ptr left begin evs s bo' HR.
  induction HR as [bo ptr left begin pads ret Hf Hret
                  | bo ptr left begin pads Hf Hlast
                  | bo ptr left begin pads evs s bo' Hf Hmore HR IH];
    intros Hs Hb Hl.
  - discriminate.
  - rewrite types_of_app.
    destruct (fillers_no_records _ _ Hf) as [-> _]. cbn [app].
    unfold frag_event, types_of. cbn [flat_map app].
    rewrite header_type_of.
    rewrite (last_pass_takes_all bo left Hb Hl Hlast), Z.eqb_refl.
    destruct begin, recycle; reflexivity.
  - rewrite types_of_app.
    destruct (fillers_no_records _ _ Hf) as [-> _]. cbn [app].
    specialize (IH Hs (Run_next_cursor recycle bo left Hb Hl)).
    pose proof (frag_len_range recycle bo left Hb Hl) as [Hn _].
    specialize (IH ltac:(lia)). cbv iota in IH.
    unfold frag_event. rewrite types_of_cons, header_type_of.
    replace (left =? frag_len recycle bo left) with false
      by (symmetry; apply Z.eqb_neq; lia).
    destruct (types_of evs) as [|t ts]; [discriminate IH|].
    destruct begin; [rewrite framed_cons | rewrite framed_rest_cons];
      rewrite IH; destruct recycle; reflexivity.
Qed.

(** The accepted payloads of a run are the first bytes it was asked to
    write. *)
Lemma Run_accepted_prefix :
  forall bo ptr left begin evs s bo',
    Run recycle log_number crc base bo ptr left begin evs s bo' ->
    0 <= bo <= kBlockSize -> 0 <= ptr -> 0 <= left ->
    exists m,
      0 <= m <= left
      /\ accepted_payloads evs = Slice_at base ptr m
      /\ (s = OK -> m = left).
Proof.
  intros bo ptr left begin evs s bo' HR.
  induction HR as [bo ptr left begin pads ret Hf Hret
                  | bo ptr left begin pads Hf Hlast
                  | bo ptr left begin pads evs s bo' Hf Hmore HR IH];
    intros Hb Hp Hl;
    pose proof (frag_len_range recycle bo left Hb Hl) as [Hn Hn'];
    rewrite accepted_payloads_app;
    destruct (fillers_no_records _ _ Hf) as [_ ->]; cbn [app].
  - exists 0. split; [lia|]. split; [|discriminate].
    unfold frag_event, accepted_payloads. cbn [flat_map].
    apply Z.eqb_neq in Hret. rewrite Hret. reflexivity.
  - exists (frag_len recycle bo left). split; [lia|].
    split; [|intros _; apply last_pass_takes_all; assumption].
    unfold frag_event, accepted_payloads. cbn [flat_map Z.eqb].
    apply app_nil_r.
  - destruct IH as (m & Hm & Hacc & Hok);
      [apply Run_next_cursor; assumption | lia | lia |].
    exists (frag_len recycle bo left + m). split; [lia|].
    split; [|intros Hs; specialize (Hok Hs); lia].
    unfold frag_event. rewrite accepted_payloads_cons. cbn [Z.eqb].
    rewrite Hacc. apply Slice_at_split; lia.
Qed.

(** A run that starts at the end of a block and is rejected leaves the
    cursor at the start of the next block. *)
Lemma Run_rejected_at_block_end :
  forall bo ptr left begin evs s bo',
    Run recycle log_number crc base bo ptr left begin evs s bo' ->
    bo = kBlockSize -> 0 <= left -> s = IOError -> bo' = 0.
Proof.
  intros bo ptr left begin evs s bo' HR.
  induction HR as [bo ptr left begin pads ret Hf Hret
                  | bo ptr left begin pads Hf Hlast
                  | bo ptr left begin pads evs s bo' Hf Hmore HR IH];
    intros Hb Hl Hs.
  - subst bo. apply roll_at_block_end.
  - discriminate.
  - assert (Hb' : 0 <= bo <= kBlockSize) by (unfold kBlockSize in *; lia).
    pose proof (frag_len_range recycle bo left Hb' Hl) as [Hn _].
    apply IH; [apply pass_fills_block; assumption | lia | exact Hs].
Qed.

End LaterPasses.

(** ** What one call hands to the sink *)

Section CallShape.

Context {S : Type} {sink : FileSink S} {crc32c : Crc32c}.

Lemma evolves_writer_after (w0 w : Writer S) (slice : Slice) :
  evolves w0 w -> evolves w0 (writer_after w (AddRecord w slice)).
Proof.
  intros Hev.
  destruct (AddRecord w slice) as [[[evs s] w']| |] eqn:E; cbn.
  - eapply evolves_AddRecord; eassumption.
  - exact Hev.
  - exact Hev.
Qed.

(** X1.  A record that fits in what is left of the current block, header
    included, is handed to the sink in a single call: one physical record
    of type Full holding the whole record, with no filler before it.  When
    the sink accepts it the cursor advances by the header and the record;
    when it rejects it the cursor stays. *)
Theorem record_that_fits_is_full (w : Writer S) (slice : Slice) (crc : Z) :
  let hs := header_size_of (recycle_log_files_ w) in
  0 <= block_offset_ w ->
  hs + size slice <= kBlockSize - block_offset_ w ->
  exists h ret w',
    AddRecord_crc w slice crc = Ret ([EvPhys h slice ret], status_of ret, w')
    /\ header_type h = code_full (recycle_log_files_ w)
    /\ header_length h = size slice
    /\ size h = hs
    /\ block_offset_ w'
       = if ret =? 0 then block_offset_ w + hs + size slice
         else block_offset_ w.
Proof.
  intros hs Hbo Hfit.
  pose proof (header_size_of_range (recycle_log_files_ w)) as Hh.
  fold hs in Hh.
  assert (Hsz : 0 <= size slice) by (unfold size; lia).
  assert (Hk : kBlockSize = 32768) by reflexivity.
  assert (Hc : cursor_ok w) by (unfold cursor_ok; lia).
  destruct (loop_body_spec w slice 0 (size slice) true crc Hc Hsz)
    as (pads & ret & w2 & Hbody & Hpads & _ & Hbo2 & _).
  cbv zeta in Hbody, Hpads, Hbo2. fold hs in Hbody, Hbo2.
  assert (Eroll : roll hs (block_offset_ w) = block_offset_ w).
  { unfold roll.
    replace (kBlockSize - block_offset_ w <? hs) with false
      by (symmetry; apply Z.ltb_ge; lia).
    reflexivity. }
  assert (En : frag_len (recycle_log_files_ w) (block_offset_ w) (size slice)
               = size slice).
  { unfold frag_len. fold hs. rewrite Eroll. lia. }
  assert (Epads : pads = []).
  { destruct Hpads as [[Hlt _] | [_ ->]]; [fold hs in Hlt; lia | reflexivity]. }
  unfold frag_event in Hbody. rewrite En, Epads in Hbody.
  rewrite Z.eqb_refl, Slice_at_whole, Z.sub_diag in Hbody.
  cbn [app] in Hbody.
  rewrite Eroll, En in Hbo2.
  eexists _, ret, w2. split.
  - unfold AddRecord_crc, add_record_with_crc, add_record_with_crc_fuel.
    fold (header_size_of (recycle_log_files_ w)). fold hs.
    replace (passes slice) with (1 + (2 * length slice + 1))%nat
      by (unfold passes; lia).
    apply do_while_more_fuel. cbn [do_while].
    rewrite Hbody. cbn [bind]. change (0 <? 0) with false.
    rewrite andb_false_r. reflexivity.
  - split; [rewrite header_type_of; destruct (recycle_log_files_ w);
            reflexivity|].
    split; [apply header_length_of; lia|].
    split; [apply header_of_size|].
    exact Hbo2.
Qed.

(** X2.  Whatever calls a constructed writer has served, and whatever the
    sink answered, its cursor is within the block, and the log number (as
    a 64-bit value), the framing mode, the allocator flag and the table of
    type checksums are the ones set by the constructor. *)
Theorem writer_invariant (dest : S) (log_number : Z) (recycle ua : bool)
    (w : Writer S) :
  evolves (Writer_new dest log_number recycle ua) w ->
  0 <= block_offset_ w <= kBlockSize
  /\ log_number_ w = to_uint64 log_number
  /\ recycle_log_files_ w = recycle
  /\ use_allocator_ w = ua
  /\ type_crc_ w = type_crc_ (Writer_new dest log_number recycle ua).
Proof.
  intros Hev.
  destruct (evolves_invariant _ _
              (Writer_new_cursor_ok dest log_number recycle ua) Hev)
    as [Hc (Hlog & Hrec & Hua & Htab)].
  split; [exact Hc|]. split; [exact Hlog|]. split; [exact Hrec|].
  split; [exact Hua | exact Htab].
Qed.

(** X3.  When a call succeeds, the type codes of its physical records, in
    the order they were emitted, are those of one reassemblable record: a
    single Full, or a First, then only Middle, then a Last, all of the
    writer's framing mode. *)
Theorem record_types_framed (w : Writer S) (slice : Slice) (crc : Z)
    evs w' :
  reachable w ->
  AddRecord_crc w slice crc = Ret (evs, OK, w') ->
  framed (recycle_log_files_ w) (types_of evs) = true.
Proof.
  intros Hr H. pose proof (reachable_cursor_ok w Hr) as Hc.
  apply AddRecord_crc_Run in H; [|exact Hc].
  destruct H as (HR & _ & _).
  apply (Run_framed _ _ _ _ _ _ _ _ _ _ _ HR eq_refl Hc).
  unfold size. lia.
Qed.

(** X4.  The status of a call is decided by its physical records alone: it
    is OK exactly when the sink accepted every one of them.  The result of
    the filler write has no part in it. *)
Theorem status_ok_iff_records_accepted (w : Writer S) (slice : Slice)
    (crc : Z) evs s w' :
  reachable w ->
  AddRecord_crc w slice crc = Ret (evs, s, w') ->
  (s = OK <-> Forall accepted (phys_records evs)).
Proof.
  intros Hr H. pose proof (reachable_cursor_ok w Hr) as Hc.
  apply AddRecord_crc_Run in H; [|exact Hc].
  destruct H as (HR & _ & _).
  apply Run_shape in HR; [| exact Hc | lia | unfold size; lia | lia].
  destruct HR as (pre & h & p & ret & -> & Hacc & -> & _).
  rewrite phys_records_app. unfold status_of.
  split.
  - intros Hs. apply Forall_app. split; [exact Hacc|].
    constructor; [|constructor]. unfold accepted. cbn [result_of].
    destruct (ret =? 0) eqn:E; [apply Z.eqb_eq; exact E | discriminate].
  - intros Hall. apply Forall_app in Hall. destruct Hall as [_ Hlast].
    apply Forall_inv in Hlast. unfold accepted in Hlast.
    cbn [result_of] in Hlast. rewrite Hlast. reflexivity.
Qed.

(** X5.  A call issues at most one filler write, and only as its very
    first sink call: the filler is the zero bytes of the space left over,
    which is positive and smaller than a header; every later call is a
    physical record, and there is at least one. *)
Theorem filler_only_first (w : Writer S) (slice : Slice) (crc : Z)
    evs s w' :
  reachable w ->
  AddRecord_crc w slice crc = Ret (evs, s, w') ->
  let hs := header_size_of (recycle_log_files_ w) in
  let leftover := kBlockSize - block_offset_ w in
  exists pads recs,
    evs = pads ++ recs
    /\ Forall (fun e => is_phys e = true) recs /\ recs <> []
    /\ ((0 < leftover < hs
         /\ exists ret, pads = [EvPad (repeat x00 (Z.to_nat leftover)) ret])
        \/ (~ 0 < leftover < hs /\ pads = [])).
Proof.
  intros Hr H hs leftover. pose proof (reachable_cursor_ok w Hr) as Hc.
  apply AddRecord_crc_Run in H; [|exact Hc].
  destruct H as (HR & _ & _).
  apply Run_fillers_first in HR; [| exact Hc | unfold size; lia].
  destruct HR as (pads & recs & Hevs & Hf & Hrecs & Hne).
  exists pads, recs. repeat split; try assumption.
Qed.

(** X6.  Only the first physical record of a call can be smaller than its
    block allows: every Middle record carries exactly the block size minus
    the header size, and every Last record at least one byte and at most
    that many.  A zero-length record is therefore a Full or a First. *)
Theorem later_fragments_sizes (w : Writer S) (slice : Slice) (crc : Z)
    evs s w' :
  reachable w ->
  AddRecord_crc w slice crc = Ret (evs, s, w') ->
  let recycle := recycle_log_files_ w in
  let room := kBlockSize - header_size_of recycle in
  each_record
    (fun h p =>
       (header_type h = code_middle recycle -> size p = room)
       /\ (header_type h = code_last recycle -> 0 < size p <= room)
       /\ (size p = 0 ->
           header_type h = code_full recycle
           \/ header_type h = code_first recycle)) evs.
Proof.
  intros Hr H recycle room. pose proof (reachable_cursor_ok w Hr) as Hc.
  apply AddRecord_crc_Run in H; [|exact Hc].
  destruct H as (HR & _ & _). fold recycle in HR.
  eapply Run_each_record_later;
    [ | exact HR | exact Hc | lia | unfold size; lia | lia | discriminate].
  intros bo ptr left begin Hb Hp Hl Hsz Hlater n.
  pose proof (frag_len_range recycle bo left Hb Hl) as [Hn Hn'].
  fold n in Hn, Hn'.
  pose proof (header_size_of_range recycle) as Hh.
  rewrite header_type_of, Slice_at_length by lia.
  destruct begin.
  - split; [destruct recycle, (left =? n); discriminate|].
    split; [destruct recycle, (left =? n); discriminate|].
    intros _. destruct recycle, (left =? n); auto.
  - destruct (Hlater eq_refl) as [Ebo Hpos].
    assert (En : n = Z.min left room).
    { unfold n, frag_len. rewrite Ebo, roll_at_block_end.
      unfold room. lia. }
    assert (Hroom : 0 < room) by (unfold room, kBlockSize; lia).
    destruct (left =? n) eqn:E;
      [apply Z.eqb_eq in E | apply Z.eqb_neq in E].
    + split; [destruct recycle; discriminate|].
      split; [intros _; lia|]. intros E0. lia.
    + split; [intros _; lia|].
      split; [destruct recycle; discriminate|]. intros E0. lia.
Qed.

(** X7.  Whatever the status, the payloads the sink accepted are, in
    order, a prefix of the record: nothing is skipped, repeated or
    reordered; and on success they are the whole record. *)
Theorem accepted_payloads_prefix (w : Writer S) (slice : Slice) (crc : Z)
    evs s w' :
  reachable w ->
  AddRecord_crc w slice crc = Ret (evs, s, w') ->
  exists n : nat,
    (n <= length slice)%nat
    /\ accepted_payloads evs = firstn n slice
    /\ (s = OK -> accepted_payloads evs = slice).
Proof.
  intros Hr H. pose proof (reachable_cursor_ok w Hr) as Hc.
  apply AddRecord_crc_Run in H; [|exact Hc].
  destruct H as (HR & _ & _).
  apply Run_accepted_prefix in HR; [| exact Hc | lia | unfold size; lia].
  destruct HR as (m & Hm & Hacc & Hok).
  unfold Slice_at in Hacc. cbn [Z.to_nat skipn] in Hacc.
  exists (Z.to_nat m). unfold size in Hm.
  split; [lia|]. split; [exact Hacc|].
  intros Hs. rewrite Hacc, (Hok Hs). unfold size.
  rewrite Nat2Z.id. apply firstn_all.
Qed.

(** X8.  The header size the loop reserves and the header
    [EmitPhysicalRecord] writes agree, and a reader can tell the size from
    the type code alone: every header has 7 bytes when its type code is
    below [kRecyclableFullType] and 11 otherwise, which is the header size
    of the writer's mode; the zero type is never emitted. *)
Theorem header_size_matches_type_code (w : Writer S) (slice : Slice)
    (crc : Z) evs s w' :
  reachable w ->
  AddRecord_crc w slice crc = Ret (evs, s, w') ->
  each_record
    (fun h _ =>
       size h = header_size_of (recycle_log_files_ w)
       /\ size h = (if header_type h <? type_code kRecyclableFullType
                    then kHeaderSize else kRecyclableHeaderSize)
       /\ type_code kFullType <= header_type h
            <= type_code kRecyclableLastType) evs.
Proof.
  intros Hr H. pose proof (reachable_cursor_ok w Hr) as Hc.
  eapply AddRecord_crc_each_record; [exact Hc | | exact H].
  intros bo ptr left begin _ _ _ _ n.
  rewrite header_of_size, header_type_of, fragment_type_legacy.
  destruct (recycle_log_files_ w), begin, (left =? n);
    repeat split; cbn; lia.
Qed.

(** X9.  When the sink rejects a fragment after the first one of a call,
    the cursor is left at 0, the start of a fresh block: every earlier
    fragment filled its block to the end. *)
Theorem rejected_later_fragment_cursor (w : Writer S) (slice : Slice)
    (crc : Z) evs w' :
  reachable w ->
  AddRecord_crc w slice crc = Ret (evs, IOError, w') ->
  (2 <= length (phys_records evs))%nat ->
  block_offset_ w' = 0.
Proof.
  intros Hr H Hlen. pose proof (reachable_cursor_ok w Hr) as Hc.
  apply AddRecord_crc_Run in H; [|exact Hc].
  destruct H as (HR & _ & _).
  assert (Hsz : 0 <= size slice) by (unfold size; lia).
  inversion HR as [bo ptr left begin pads ret Hf Hret
                  | bo ptr left begin pads Hf Hlast
                  | bo ptr left begin pads evs' s bo' Hf Hmore HR'];
    subst.
  - exfalso. rewrite phys_records_app in Hlen.
    destruct (fillers_payloads _ _ _ Hf) as [_ Hph]. rewrite Hph in Hlen.
    cbn in Hlen. lia.
  - pose proof (frag_len_range (recycle_log_files_ w) (block_offset_ w)
                  (size slice) Hc Hsz) as [Hn _].
    eapply Run_rejected_at_block_end;
      [exact HR' | apply pass_fills_block; assumption | lia | reflexivity].
Qed.

End CallShape.

(** ** Worked examples *)

Lemma record_that_fits_is_full_witness :
  exists h ret w',
    AddRecord_crc example_writer [x01; x02; x03] 9
      = Ret ([EvPhys h [x01; x02; x03] ret], status_of ret, w')
    /\ header_type h = code_full false
    /\ header_length h = 3
    /\ size h = kHeaderSize
    /\ block_offset_ w' = if ret =? 0 then 0 + kHeaderSize + 3 else 0.
Proof.
  apply (record_that_fits_is_full example_writer [x01; x02; x03] 9).
  - vm_compute. discriminate.
  - vm_compute. discriminate.
Defined.

Lemma writer_invariant_witness :
  0 <= block_offset_ example_writer_3_left <= kBlockSize
  /\ log_number_ example_writer_3_left = to_uint64 7
  /\ recycle_log_files_ example_writer_3_left = false
  /\ use_allocator_ example_writer_3_left = false
  /\ type_crc_ example_writer_3_left = type_crc_ example_writer.
Proof.
  apply (writer_invariant ([] : ScriptSink) 7 false false
           example_writer_3_left).
  apply evolves_writer_after. apply evolves_here.
Defined.

Lemma record_types_framed_witness :
  exists evs w',
    AddRecord_crc example_writer_header_left [x01] 9 = Ret (evs, OK, w')
    /\ types_of evs = [code_first false; code_last false]
    /\ framed false (types_of evs) = true.
Proof.
  assert (H : AddRecord_crc example_writer_header_left [x01] 9
              = Ret ([EvPhys _ [] 0; EvPhys _ [x01] 0], OK, _))
    by (vm_compute; reflexivity).
  eexists _, _. split; [exact H|].
  split; [vm_compute; reflexivity|].
  apply (record_types_framed example_writer_header_left [x01] 9 _ _
           (reachable_writer_after _ _ (reachable_new _ _ _ _)) H).
Defined.

Lemma status_ok_iff_records_accepted_witness :
  exists h w',
    AddRecord_crc example_writer_bad_filler [x01] 9
      = Ret ([EvPad [x00; x00; x00] 9; EvPhys h [x01] 0], OK, w')
    /\ (OK = OK
        <-> Forall accepted
              (phys_records [EvPad [x00; x00; x00] 9; EvPhys h [x01] 0])).
Proof.
  assert (H : AddRecord_crc example_writer_bad_filler [x01] 9
              = Ret ([EvPad [x00; x00; x00] 9; EvPhys _ [x01] 0], OK, _))
    by (vm_compute; reflexivity).
  eexists _, _. split; [exact H|].
  apply (status_ok_iff_records_accepted example_writer_bad_filler [x01] 9
           _ _ _ (reachable_writer_after _ _ (reachable_new _ _ _ _)) H).
Defined.

Lemma filler_only_first_witness :
  exists h w' pads recs,
    AddRecord_crc example_writer_3_left [x01] 9
      = Ret ([EvPad [x00; x00; x00] 0; EvPhys h [x01] 0], OK, w')
    /\ [EvPad [x00; x00; x00] 0; EvPhys h [x01] 0] = pads ++ recs
    /\ Forall (fun e => is_phys e = true) recs /\ recs <> []
    /\ ((0 < kBlockSize - block_offset_ example_writer_3_left < kHeaderSize
         /\ exists ret,
              pads = [EvPad
                        (repeat x00
                           (Z.to_nat
                              (kBlockSize
                               - block_offset_ example_writer_3_left)))
                        ret])
        \/ (~ 0 < kBlockSize - block_offset_ example_writer_3_left
              < kHeaderSize
            /\ pads = [])).
Proof.
  assert (H : AddRecord_crc example_writer_3_left [x01] 9
              = Ret ([EvPad [x00; x00; x00] 0; EvPhys _ [x01] 0], OK, _))
    by (vm_compute; reflexivity).
  destruct (filler_only_first example_writer_3_left [x01] 9 _ _ _
              (reachable_writer_after _ _ (reachable_new _ _ _ _)) H)
    as (pads & recs & Hevs & Hrecs & Hne & Hpads).
  eexists _, _, pads, recs. split; [exact H|].
  split; [exact Hevs|]. split; [exact Hrecs|]. split; [exact Hne|].
  exact Hpads.
Defined.

Lemma later_fragments_sizes_witness :
  exists evs w',
    AddRecord_crc example_writer_header_left [x01] 9 = Ret (evs, OK, w')
    /\ each_record
         (fun h p =>
            (header_type h = code_middle false
             -> size p = kBlockSize - kHeaderSize)
            /\ (header_type h = code_last false
                -> 0 < size p <= kBlockSize - kHeaderSize)
            /\ (size p = 0 ->
                header_type h = code_full false
                \/ header_type h = code_first false)) evs.
Proof.
  assert (H : AddRecord_crc example_writer_header_left [x01] 9
              = Ret ([EvPhys _ [] 0; EvPhys _ [x01] 0], OK, _))
    by (vm_compute; reflexivity).
  eexists _, _. split; [exact H|].
  apply (later_fragments_sizes example_writer_header_left [x01] 9 _ _ _
           (reachable_writer_after _ _ (reachable_new _ _ _ _)) H).
Defined.

Lemma accepted_payloads_prefix_witness :
  exists evs w',
    let slice := [x01; x02; x03; x04; x05; x06; x07; x08; x09; x0a] in
    AddRecord_crc example_failing_writer slice 9 = Ret (evs, IOError, w')
    /\ accepted_payloads evs = firstn 7 slice
    /\ exists n : nat,
         (n <= length slice)%nat
         /\ accepted_payloads evs = firstn n slice
         /\ (IOError = OK -> accepted_payloads evs = slice).
Proof.
  cbv zeta.
  assert (H : AddRecord_crc example_failing_writer
                [x01; x02; x03; x04; x05; x06; x07; x08; x09; x0a] 9
              = Ret ([EvPhys _ [x01; x02; x03; x04; x05; x06; x07] 0;
                      EvPhys _ [x08; x09; x0a] 5], IOError, _))
    by (vm_compute; reflexivity).
  eexists _, _. split; [exact H|].
  split; [reflexivity|].
  apply (accepted_payloads_prefix example_failing_writer _ 9 _ _ _
           (reachable_writer_after _ _ (reachable_new _ _ _ _)) H).
Defined.

Lemma header_size_matches_type_code_witness :
  exists evs s w',
    AddRecord_crc example_recycling_writer [x01; x02] 9 = Ret (evs, s, w')
    /\ each_record
         (fun h _ =>
            size h = kRecyclableHeaderSize
            /\ size h = (if header_type h <? type_code kRecyclableFullType
                         then kHeaderSize else kRecyclableHeaderSize)
            /\ type_code kFullType <= header_type h
                 <= type_code kRecyclableLastType) evs.
Proof.
  assert (H : AddRecord_crc example_recycling_writer [x01; x02] 9
              = Ret ([EvPhys _ [x01; x02] 0], OK, _))
    by (vm_compute; reflexivity).
  eexists _, _, _. split; [exact H|].
  apply (header_size_matches_type_code example_recycling_writer [x01; x02] 9
           _ _ _ (reachable_new _ _ _ _) H).
Defined.

Lemma rejected_later_fragment_cursor_witness :
  exists evs w',
    AddRecord_crc example_failing_writer
      [x01; x02; x03; x04; x05; x06; x07; x08; x09; x0a] 9
      = Ret (evs, IOError, w')
    /\ length (phys_records evs) = 2%nat
    /\ block_offset_ w' = 0.
Proof.
  assert (H : AddRecord_crc example_failing_writer
                [x01; x02; x03; x04; x05; x06; x07; x08; x09; x0a] 9
              = Ret ([EvPhys _ [x01; x02; x03; x04; x05; x06; x07] 0;
                      EvPhys _ [x08; x09; x0a] 5], IOError, _))
    by (vm_compute; reflexivity).
  eexists _, _. split; [exact H|].
  split; [reflexivity|].
  apply (rejected_later_fragment_cursor example_failing_writer _ 9 _ _
           (reachable_writer_after _ _ (reachable_new _ _ _ _)) H).
  cbn. lia.
Defined.

(** ** Blocks: positions and counts *)

Section Blocks.

Variables (recycle : bool) (log_number crc : Z) (base : Slice).

Local Abbreviation hs := (header_size_of recycle).

(** The cursor follows the bytes written through a whole number of
    blocks. *)
Lemma Run_blocks :
  forall bo ptr left begin evs s bo',
    Run recycle log_number crc base bo ptr left begin evs s bo' ->
    0 <= bo <= kBlockSize -> 0 <= ptr -> 0 <= left ->
    ptr + left <= size base ->
    exists blocks,
      0 <= blocks /\ bo + bytes_written evs = bo' + blocks * kBlockSize.
Proof.
  pose proof (header_size_of_range recycle) as Hh.
  assert (Hpads : forall bo pads,
             fillers recycle bo pads -> 0 <= bo <= kBlockSize ->
             exists q, 0 <= q
                       /\ bo + bytes_written pads = roll hs bo + q * kBlockSize).
  { intros bo pads [[Hlt [r ->]] | [Hn ->]] Hb; unfold roll.
    - replace (kBlockSize - bo <? hs) with true
        by (symmetry; apply Z.ltb_lt; lia).
      exists 1. rewrite bytes_written_cons. change (bytes_written []) with 0.
      unfold size. rewrite repeat_length, Z2Nat.id by lia. lia.
    - change (bytes_written []) with 0.
      destruct (kBlockSize - bo <? hs) eqn:E.
      + apply Z.ltb_lt in E. exists 1. lia.
      + exists 0. lia. }
  intros bo ptr left begin evs s bo' HR.
  induction HR as [bo ptr left begin pads ret Hf Hret
                  | bo ptr left begin pads Hf Hlast
                  | bo ptr left begin pads evs s bo' Hf Hmore HR IH];
    intros Hb Hp Hl Hsz;
    pose proof (frag_len_range recycle bo left Hb Hl) as [Hn Hn'];
    destruct (Hpads _ _ Hf Hb) as (q & Hq0 & Hq);
    rewrite bytes_written_app; unfold frag_event;
    rewrite bytes_written_cons; change (bytes_written []) with 0.
  - apply Z.eqb_neq in Hret. rewrite Hret. exists q. lia.
  - change (0 =? 0) with true. cbv iota.
    rewrite header_of_size, Slice_at_length by lia. exists q. lia.
  - change (0 =? 0) with true. cbv iota.
    rewrite header_of_size, Slice_at_length by lia.
    destruct IH as (q' & Hq'0 & Hq');
      [apply Run_next_cursor; assumption | lia | lia | lia |].
    exists (q + q'). lia.
Qed.

(** Every physical record starts, after the block switch, where it fits in
    its block. *)
Lemma Run_records_fit :
  forall bo ptr left begin evs s bo',
    Run recycle log_number crc base bo ptr left begin evs s bo' ->
    0 <= bo <= kBlockSize -> 0 <= ptr -> 0 <= left ->
    ptr + left <= size base ->
    forall pre h p r post,
      phys_records evs = pre ++ EvPhys h p r :: post ->
      roll hs (cursor_after hs bo pre) + size h + size p <= kBlockSize.
Proof.
  pose proof (header_size_of_range recycle) as Hh.
  intros bo ptr left begin evs s bo' HR.
  assert (Hone : forall bo ptr left begin ret pre h p r post,
             0 <= bo <= kBlockSize -> 0 <= ptr -> 0 <= left ->
             ptr + left <= size base ->
             [frag_event recycle log_number crc base bo ptr left begin ret]
             = pre ++ EvPhys h p r :: post ->
             roll hs (cursor_after hs bo pre) + size h + size p
               <= kBlockSize).
  { intros bo0 ptr0 left0 begin0 ret pre h p r post Hb Hp Hl Hsz E.
    pose proof (frag_len_range recycle bo0 left0 Hb Hl) as [Hn Hn'].
    destruct pre as [|e pre].
    - cbn [app] in E. unfold frag_event in E.
      apply (f_equal (fun l => match l with
                               | EvPhys h' p' _ :: _ => size h' + size p'
                               | _ => 0
                               end)) in E.
      cbv beta iota in E.
      rewrite header_of_size, Slice_at_length in E by lia.
      cbn [cursor_after fold_left]. lia.
    - exfalso. apply (f_equal (@length Event)) in E.
      rewrite length_app in E. cbn [length] in E. lia. }
  induction HR as [bo ptr left begin pads ret Hf Hret
                  | bo ptr left begin pads Hf Hlast
                  | bo ptr left begin pads evs s bo' Hf Hmore HR IH];
    intros Hb Hp Hl Hsz pre h p r post E;
    rewrite phys_records_app in E;
    destruct (fillers_payloads _ _ _ Hf) as [_ Hph]; rewrite Hph in E;
    cbn [app] in E.
  - exact (Hone _ _ _ _ _ _ _ _ _ _ Hb Hp Hl Hsz E).
  - exact (Hone _ _ _ _ _ _ _ _ _ _ Hb Hp Hl Hsz E).
  - pose proof (frag_len_range recycle bo left Hb Hl) as [Hn Hn'].
    unfold frag_event in E. rewrite phys_records_cons in E.
    destruct pre as [|e pre].
    + cbn [app] in E.
      apply (f_equal (fun l => match l with
                               | EvPhys h' p' _ :: _ => size h' + size p'
                               | _ => 0
                               end)) in E.
      cbv beta iota in E.
      rewrite header_of_size, Slice_at_length in E by lia.
      cbn [cursor_after fold_left].
      assert (Hr : 0 <= roll hs bo <= kBlockSize - hs)
        by (apply roll_range; [unfold kBlockSize; lia | exact Hb]).
      lia.
    + cbn [app] in E.
      assert (Ee : e = EvPhys
                         (header_of recycle log_number
                            (fragment_type recycle begin
                               (left =? frag_len recycle bo left))
                            (frag_len recycle bo left) crc)
                         (Slice_at base ptr (frag_len recycle bo left)) 0)
        by (apply (f_equal (fun l => hd e l)) in E; cbn [hd] in E;
            symmetry; exact E).
      assert (Etl : phys_records evs = pre ++ EvPhys h p r :: post)
        by (apply (f_equal (@tl Event)) in E; cbn [tl] in E; exact E).
      rewrite Ee, cursor_after_cons.
      rewrite header_of_size, Slice_at_length by lia.
      apply (IH (Run_next_cursor recycle bo left Hb Hl)
               ltac:(lia) ltac:(lia) ltac:(lia) _ _ _ _ _ Etl).
Qed.

Lemma phys_records_length_app (a b : list Event) :
  length (phys_records (a ++ b))
  = (length (phys_records a) + length (phys_records b))%nat.
Proof. rewrite phys_records_app. apply length_app. Qed.

(** The records of a run that starts at the end of a block, all but the
    last of which fill a block. *)
Lemma Run_count_at_block_end :
  forall bo ptr left begin evs s bo',
    Run recycle log_number crc base bo ptr left begin evs s bo' ->
    bo = kBlockSize -> 0 < left ->
    (Z.of_nat (length (phys_records evs)) - 1) * (kBlockSize - hs) < left.
Proof.
  pose proof (header_size_of_range recycle) as Hh.
  assert (Hk : kBlockSize = 32768) by reflexivity.
  intros bo ptr left begin evs s bo' HR.
  induction HR as [bo ptr left begin pads ret Hf Hret
                  | bo ptr left begin pads Hf Hlast
                  | bo ptr left begin pads evs s bo' Hf Hmore HR IH];
    intros Hb Hl;
    rewrite phys_records_length_app;
    destruct (fillers_payloads _ _ _ Hf) as [_ Hph]; rewrite Hph.
  - cbn [length phys_records filter frag_event is_phys Nat.add]. lia.
  - cbn [length phys_records filter frag_event is_phys Nat.add]. lia.
  - unfold frag_event. rewrite phys_records_cons. cbn [length Nat.add].
    subst bo.
    assert (Hb' : 0 <= kBlockSize <= kBlockSize) by lia.
    assert (Hl' : 0 <= left) by lia.
    pose proof (pass_fills_block recycle kBlockSize left Hb' Hl' Hmore)
      as Hfull.
    specialize (IH Hfull Hmore).
    rewrite roll_at_block_end in Hfull.
    assert (Efrag : frag_len recycle kBlockSize left = kBlockSize - hs)
      by lia.
    rewrite Efrag in IH.
    destruct recycle; cbn [header_size_of] in *;
      unfold kRecyclableHeaderSize, kHeaderSize in *; lia.
Qed.

(** The records of any run. *)
Lemma Run_count :
  forall bo ptr left begin evs s bo',
    Run recycle log_number crc base bo ptr left begin evs s bo' ->
    0 <= bo <= kBlockSize -> 0 <= left ->
    (Z.of_nat (length (phys_records evs)) - 2) * (kBlockSize - hs) < left.
Proof.
  pose proof (header_size_of_range recycle) as Hh.
  assert (Hk : kBlockSize = 32768) by reflexivity.
  intros bo ptr left begin evs s bo' HR Hb Hl.
  pose proof (frag_len_range recycle bo left Hb Hl) as [Hn Hn'].
  inversion HR as [bo0 ptr0 left0 begin0 pads ret Hf Hret
                  | bo0 ptr0 left0 begin0 pads Hf Hlast
                  | bo0 ptr0 left0 begin0 pads evs' s0 bo0' Hf Hmore HR'];
    subst;
    rewrite phys_records_length_app;
    destruct (fillers_payloads _ _ _ Hf) as [_ Hph]; rewrite Hph.
  - cbn [length phys_records filter frag_event is_phys Nat.add].
    destruct recycle; cbn [header_size_of] in *;
      unfold kRecyclableHeaderSize, kHeaderSize in *; lia.
  - cbn [length phys_records filter frag_event is_phys Nat.add].
    destruct recycle; cbn [header_size_of] in *;
      unfold kRecyclableHeaderSize, kHeaderSize in *; lia.
  - unfold frag_event. rewrite phys_records_cons. cbn [length Nat.add].
    pose proof (Run_count_at_block_end _ _ _ _ _ _ _ HR'
                  (pass_fills_block recycle bo left Hb Hl Hmore) Hmore)
      as Hcount.
    destruct recycle; cbn [header_size_of] in *;
      unfold kRecyclableHeaderSize, kHeaderSize in *; lia.
Qed.

End Blocks.

Section BlockProperties.

Context {S : Type} {sink : FileSink S} {crc32c : Crc32c}.

(** X10.  Whatever the status of a call, the cursor has followed the bytes
    the writer counts as written (the fillers and the accepted records)
    through a whole number of blocks: old cursor plus those bytes is the
    new cursor plus a non-negative multiple of the block size. *)
Theorem cursor_tracks_bytes_written (w : Writer S) (slice : Slice) (crc : Z)
    evs s w' :
  reachable w ->
  AddRecord_crc w slice crc = Ret (evs, s, w') ->
  exists blocks,
    0 <= blocks
    /\ block_offset_ w + bytes_written evs
       = block_offset_ w' + blocks * kBlockSize.
Proof.
  intros Hr H. pose proof (reachable_cursor_ok w Hr) as Hc.
  apply AddRecord_crc_Run in H; [|exact Hc].
  destruct H as (HR & _ & _).
  apply (Run_blocks _ _ _ _ _ _ _ _ _ _ _ HR Hc (Z.le_refl 0)
           (Nat2Z.is_nonneg _) (Z.le_refl _)).
Qed.

(** X11.  No physical record straddles a block boundary: replaying the
    cursor over the records emitted before it, each record of a call
    starts, after the block switch, at an offset from which its header and
    payload end within the block. *)
Theorem records_fit_their_block (w : Writer S) (slice : Slice) (crc : Z)
    evs s w' pre h p r post :
  reachable w ->
  AddRecord_crc w slice crc = Ret (evs, s, w') ->
  phys_records evs = pre ++ EvPhys h p r :: post ->
  let hs := header_size_of (recycle_log_files_ w) in
  roll hs (cursor_after hs (block_offset_ w) pre) + size h + size p
    <= kBlockSize.
Proof.
  intros Hr H E hs. pose proof (reachable_cursor_ok w Hr) as Hc.
  apply AddRecord_crc_Run in H; [|exact Hc].
  destruct H as (HR & _ & _).
  apply (Run_records_fit _ _ _ _ _ _ _ _ _ _ _ HR Hc (Z.le_refl 0)
           (Nat2Z.is_nonneg _) (Z.le_refl _) _ _ _ _ _ E).
Qed.

(** X12.  A call emits few records: with [room] the block size minus the
    header size, the number of physical records of a call, less two, times
    [room], is below the length of the record; so a record of [L] bytes
    makes at most [L / room + 2] physical records, and an empty one makes
    one. *)
Theorem record_count_bound (w : Writer S) (slice : Slice) (crc : Z)
    evs s w' :
  reachable w ->
  AddRecord_crc w slice crc = Ret (evs, s, w') ->
  let room := kBlockSize - header_size_of (recycle_log_files_ w) in
  let count := Z.of_nat (length (phys_records evs)) in
  1 <= count
  /\ (count - 2) * room < size slice
  /\ count <= size slice / room + 2
  /\ (slice = [] -> count = 1).
Proof.
  intros Hr H room count. pose proof (reachable_cursor_ok w Hr) as Hc.
  apply AddRecord_crc_Run in H; [|exact Hc].
  destruct H as (HR & _ & _).
  assert (Hsz : 0 <= size slice) by (unfold size; lia).
  pose proof (Run_count _ _ _ _ _ _ _ _ _ _ _ HR Hc Hsz) as Hcount.
  fold room in Hcount. fold count in Hcount.
  pose proof (header_size_of_range (recycle_log_files_ w)) as Hh.
  assert (Hroom : 0 < room) by (unfold room, kBlockSize; lia).
  assert (Hone : 1 <= count).
  { apply Run_fillers_first in HR; [| exact Hc | exact Hsz].
    destruct HR as (pads & recs & -> & Hf & Hrecs & Hne).
    unfold count. rewrite phys_records_length_app.
    destruct recs as [|e recs]; [congruence|].
    apply Forall_inv in Hrecs. destruct e; [discriminate|].
    rewrite phys_records_cons. cbn [length]. lia. }
  split; [exact Hone|]. split; [exact Hcount|].
  split.
  - assert (Hq : count - 2 <= size slice / room).
    { apply Z.div_le_lower_bound; [exact Hroom|].
      rewrite Z.mul_comm. lia. }
    lia.
  - intros ->. change (size []) with 0 in Hcount.
    assert (count - 2 < 0) by nia. lia.
Qed.

End BlockProperties.

Lemma cursor_tracks_bytes_written_witness :
  exists evs w',
    AddRecord_crc example_writer_3_left [x01] 9 = Ret (evs, OK, w')
    /\ bytes_written evs = 11
    /\ block_offset_ w' = 8
    /\ exists blocks,
         0 <= blocks
         /\ block_offset_ example_writer_3_left + bytes_written evs
            = block_offset_ w' + blocks * kBlockSize.
Proof.
  assert (H : AddRecord_crc example_writer_3_left [x01] 9
              = Ret ([EvPad [x00; x00; x00] 0; EvPhys _ [x01] 0], OK, _))
    by (vm_compute; reflexivity).
  eexists _, _. split; [exact H|].
  split; [vm_compute; reflexivity|]. split; [vm_compute; reflexivity|].
  apply (cursor_tracks_bytes_written example_writer_3_left [x01] 9 _ _ _
           (reachable_writer_after _ _ (reachable_new _ _ _ _)) H).
Defined.

Lemma records_fit_their_block_witness :
  exists h1 h2 w',
    let slice := [x01; x02; x03; x04; x05; x06; x07; x08; x09; x0a] in
    AddRecord_crc example_failing_writer slice 9
      = Ret ([EvPhys h1 (firstn 7 slice) 0; EvPhys h2 (skipn 7 slice) 5],
             IOError, w')
    /\ roll kHeaderSize
         (cursor_after kHeaderSize (block_offset_ example_failing_writer)
            [EvPhys h1 (firstn 7 slice) 0])
       + size h2 + size (skipn 7 slice) <= kBlockSize.
Proof.
  cbv zeta.
  assert (H : AddRecord_crc example_failing_writer
                [x01; x02; x03; x04; x05; x06; x07; x08; x09; x0a] 9
              = Ret ([EvPhys _ [x01; x02; x03; x04; x05; x06; x07] 0;
                      EvPhys _ [x08; x09; x0a] 5], IOError, _))
    by (vm_compute; reflexivity).
  eexists _, _, _. split; [exact H|].
  apply (records_fit_their_block example_failing_writer _ 9 _ _ _
           [EvPhys _ _ 0] _ _ 5 []
           (reachable_writer_after _ _ (reachable_new _ _ _ _)) H).
  reflexivity.
Defined.

Lemma record_count_bound_witness :
  exists evs w',
    AddRecord_crc example_writer_header_left [x01] 9 = Ret (evs, OK, w')
    /\ length (phys_records evs) = 2%nat
    /\ 1 <= Z.of_nat (length (phys_records evs))
    /\ (Z.of_nat (length (phys_records evs)) - 2)
         * (kBlockSize - kHeaderSize) < size [x01]
    /\ Z.of_nat (length (phys_records evs))
       <= size [x01] / (kBlockSize - kHeaderSize) + 2
    /\ ([x01] = [] -> Z.of_nat (length (phys_records evs)) = 1).
Proof.
  assert (H : AddRecord_crc example_writer_header_left [x01] 9
              = Ret ([EvPhys _ [] 0; EvPhys _ [x01] 0], OK, _))
    by (vm_compute; reflexivity).
  eexists _, _. split; [exact H|].
  split; [reflexivity|].
  apply (record_count_bound example_writer_header_left [x01] 9 _ _ _
           (reachable_writer_after _ _ (reachable_new _ _ _ _)) H).
Defined.
